(** * AppInsightsCore: pipeline composition and dispatch

    Shallow embedding of
    [vNext/shared/AppInsightsCore/src/JavaScriptSDK/AppInsightsCore.ts].

    JavaScript values are embedded as follows.  A property that may be
    [null] or [undefined] is an [option]: [None] stands for both, which the
    code never tells apart on a property (it only uses [isNullOrUndefined]
    and truthiness).  The argument of [track] is an [option] too, and there
    [None] is [null], the one value that [track] tests for.
    Numbers that the code handles (priorities, intervals) are integers, [Z].
    A call that the core makes on one of its collaborators (a plugin hook,
    the logger, the channel controller, a notification listener) is recorded
    in the order in which it happens; hooks return normally and do not call
    back into the core.

    The development also covers [stringUtils.GetLength] of
    [extensions/applicationinsights-dependencies-js/src/ajaxUtils.ts] and the
    configurations built by
    [extensions/applicationinsights-perfmarkmeasure-js/rollup.config.js]. *)

From Stdlib Require Import ZArith List Ascii.
From stdpp Require Import base option list sorting gmap strings pretty.

Local Open Scope string_scope.
Local Open Scope Z_scope.
Local Open Scope list_scope.

(** ** Values *)

Module CoreUtils.
(** Modelled from the spec: [CoreUtils.isNullOrUndefined] is imported from
    [./CoreUtils], which is not among the sources; "absent" in the spec is
    [null] or [undefined]. *)
Definition isNullOrUndefined {A : Type} (input : option A) : bool :=
  match input with
  | None => true
  | Some _ => false
  end.
End CoreUtils.

(** [!x] for a string-valued property: [undefined], [null] and [""] are falsy. *)
Definition falsy_string (x : option string) : bool :=
  match x with
  | None => true
  | Some s => bool_decide (s = "")
  end.

(** Truthiness of a number-valued property: [undefined] and [0] are falsy. *)
Definition truthy_number (x : option Z) : bool :=
  match x with
  | None => false
  | Some z => negb (z =? 0)
  end.

(** [a < b] where [a] may be [undefined]: [undefined] converts to [NaN] and
    every comparison with [NaN] is false. *)
Definition number_lt (a : option Z) (b : Z) : bool :=
  match a with
  | None => false
  | Some z => z <? b
  end.

(** ** Interfaces *)

Module ITelemetryPlugin.
(** An extension as the core sees it.  [initialize] and [processTelemetry]
    tell whether the object provides that callback; [priority] is
    [undefined] on a plain [IPlugin]; [identifier] is only read on an
    entry whose [priority] is truthy. *)
Record t := {
  identifier : string;
  priority : option Z;
  initialize : bool;
  processTelemetry : bool
}.
End ITelemetryPlugin.
Abbreviation IPlugin := ITelemetryPlugin.t.

#[global] Instance IPlugin_eq_dec : EqDecision IPlugin.
Proof. solve_decision. Defined.

Module ITelemetryItem.
Record t := {
  name : option string;
  iKey : option string;
  time : option string;
  ver : option string;
  baseType : option string;
  baseData : option (list (string * string))
}.
End ITelemetryItem.
Abbreviation ITelemetryItem := ITelemetryItem.t.

#[global] Instance ITelemetryItem_eq_dec : EqDecision ITelemetryItem.
Proof. solve_decision. Defined.

Inductive EventsDiscardedReason := InvalidEvent.

#[global] Instance EventsDiscardedReason_eq_dec : EqDecision EventsDiscardedReason.
Proof. solve_decision. Defined.

Module INotificationListener.
(** Modelled from the spec: the listener interface is not among the
    sources.  A listener is "any observer registered to receive discard/other
    lifecycle callbacks"; [eventsDiscarded] tells whether it "implements a
    discard-handling capability".  [ref] is the identity of the object. *)
Record t := {
  ref : nat;
  eventsDiscarded : bool
}.
End INotificationListener.
Abbreviation INotificationListener := INotificationListener.t.

#[global] Instance INotificationListener_eq_dec : EqDecision INotificationListener.
Proof. solve_decision. Defined.

Module _InternalLogMessage.
Record t := {
  messageId : N;
  message : string
}.
End _InternalLogMessage.
Abbreviation _InternalLogMessage := _InternalLogMessage.t.

(** Values stored in [config.extensionConfig]: a plugin's own settings, or
    the reference to the core's notification manager. *)
Inductive ExtensionConfigValue :=
| PluginSettings (n : nat)
| NotificationManagerRef.

Module IConfiguration.
Record t := {
  instrumentationKey : option string;
  extensions : option (list (option IPlugin));
  extensionConfig : option (gmap string ExtensionConfigValue);
  diagnosticLogInterval : option Z
}.
End IConfiguration.
Abbreviation IConfiguration := IConfiguration.t.

(** ** Calls made on collaborators *)

Inductive Call :=
| warnToConsole (message : string)
| setNextPlugin (self next : IPlugin)
| channelController_initialize (extensions : list IPlugin)
| plugin_initialize (self : IPlugin)
| processTelemetry (self : IPlugin) (item : ITelemetryItem)
| notificationManager_eventsDiscarded
    (events : list (option ITelemetryItem)) (reason : EventsDiscardedReason)
| listener_eventsDiscarded (listener : INotificationListener)
    (events : list (option ITelemetryItem)) (reason : EventsDiscardedReason).

(** ** Collaborators that are not part of the core *)

(** What the core takes from code that is not its own:
    - [ChannelControllerPriority], [ChannelControllerIdentifier]: the
      [priority] and the [identifier] of the channel controller;
    - [channelQueue]: the channel groups that the controller exposes once
      its [initialize] has been called with this configuration and this
      extension list;
    - [toISOString]: [new Date().toISOString()] at the n-th reading of the
      clock;
    - [dataType]: [_InternalLogMessage.dataType];
    - [logged]: the diagnostic messages that the processing hook of a plugin
      appends to [logger.queue] while it handles an item. *)
Class Collaborators := {
  ChannelControllerPriority : Z;
  ChannelControllerIdentifier : string;
  channelQueue : IConfiguration -> list IPlugin -> list (list IPlugin);
  toISOString : nat -> string;
  dataType : string;
  logged : IPlugin -> ITelemetryItem -> list _InternalLogMessage
}.

Module NotificationManager.
(** Modelled from the spec: [./NotificationManager] is not among the
    sources.  "[addNotificationListener(listener)] appends to the observer
    set (duplicates permitted -- no identity de-duplication);
    [removeNotificationListener(listener)] removes all occurrences of a
    matching listener reference; [eventsDiscarded(items, reason)] invokes
    every currently registered listener that implements a discard-handling
    capability, passing the discarded items and a reason code." *)
Record t := { listeners : list INotificationListener }.

Definition new : t := {| listeners := [] |}.

Definition addNotificationListener (listener : INotificationListener) (m : t) : t :=
  {| listeners := listeners m ++ [listener] |}.

Definition removeNotificationListener (listener : INotificationListener) (m : t) : t :=
  {| listeners := filter (λ l, l ≠ listener) (listeners m) |}.

Definition eventsDiscarded (events : list (option ITelemetryItem))
    (reason : EventsDiscardedReason) (m : t) : list Call :=
  (λ l, listener_eventsDiscarded l events reason)
  <$> filter (λ l, INotificationListener.eventsDiscarded l = true) (listeners m).
End NotificationManager.
Abbreviation NotificationManager := NotificationManager.t.

Module DiagnosticLogger.
(** Modelled from the spec: [./DiagnosticLogger] is not among the sources.
    The logger "maintains an unbounded, strictly-append, FIFO queue of
    diagnostic messages"; a new logger has an empty queue. *)
Record t := { queue : list _InternalLogMessage }.

Definition new : t := {| queue := [] |}.
End DiagnosticLogger.
Abbreviation DiagnosticLogger := DiagnosticLogger.t.

Module ChannelController.
(** Modelled from the spec: [./ChannelController] is not among the sources.
    The core reads one thing of the controller, "a read accessor returning
    its current collection of channel-group control objects"; a new
    controller has none. *)
Record t := { ChannelControls : list (list IPlugin) }.

Definition new : t := {| ChannelControls := [] |}.
End ChannelController.
Abbreviation ChannelController := ChannelController.t.

(** ** Outcomes *)

(** [Error message] is [throw Error(message)]; [TypeError] is what the
    engine raises when a property of [null] or [undefined] is read. *)
Inductive Exception :=
| Error (message : string)
| TypeError.

Inductive Completion (A : Type) :=
| Normal (value : A)
| Throw (e : Exception).
Arguments Normal {A} value.
Arguments Throw {A} e.

(** ** The core *)

Module AppInsightsCore.

Record t := {
  config : option IConfiguration;
  logger : option DiagnosticLogger;
  _extensions : list (option IPlugin);
  _notificationManager : option NotificationManager;
  _isInitialized : bool;
  _channelController : ChannelController
}.

(** The instance together with the number of clock readings made so far. *)
Record Runtime := {
  this : t;
  clock : nat
}.

(** A method body: it runs from a state to a completion, the state it
    leaves (also when it throws) and the calls it made, oldest first. *)
Definition M (A : Type) : Type := Runtime -> Completion A * Runtime * list Call.

Definition ret {A : Type} (a : A) : M A := λ σ, (Normal a, σ, []).

Definition throw {A : Type} (e : Exception) : M A := λ σ, (Throw e, σ, []).

Definition bind {A B : Type} (m : M A) (k : A -> M B) : M B :=
  λ σ, match m σ with
       | (Normal a, σ1, c1) => let '(r, σ2, c2) := k a σ1 in (r, σ2, c1 ++ c2)
       | (Throw e, σ1, c1) => (Throw e, σ1, c1)
       end.

Notation "'let*' x ':=' m 'in' k" := (bind m (λ x, k))
  (at level 10, x pattern, m at level 100, k at level 200).
Notation "m ';;' k" := (bind m (λ _, k))
  (at level 100, k at level 200, right associativity).

Definition get : M t := λ σ, (Normal (this σ), σ, []).

Definition calls (cs : list Call) : M unit := λ σ, (Normal tt, σ, cs).

(** [new Date().toISOString()] *)
Definition Date_now `{Collaborators} : M string :=
  λ σ, (Normal (toISOString (clock σ)), {| this := this σ; clock := S (clock σ) |}, []).

(** Reading a property of a value that may be [undefined]. *)
Definition deref {A : Type} (x : option A) : M A :=
  match x with
  | Some a => ret a
  | None => throw TypeError
  end.

Definition outcome {A : Type} (r : Completion A * Runtime * list Call) : Completion A := r.1.1.
Definition final {A : Type} (r : Completion A * Runtime * list Call) : Runtime := r.1.2.
Definition trace {A : Type} (r : Completion A * Runtime * list Call) : list Call := r.2.

Definition constructor : t := {|
  config := None;
  logger := None;
  _extensions := [];
  _notificationManager := None;
  _isInitialized := false;
  _channelController := ChannelController.new
|}.

Definition validationError : string := "Extensions must provide callback to initialize".

(** Lines 62-70: every entry is non-null and has an [initialize] callback. *)
Fixpoint validate (exts : list (option IPlugin)) : option (list IPlugin) :=
  match exts with
  | [] => Some []
  | None :: _ => None
  | Some extension :: rest =>
      if ITelemetryPlugin.initialize extension
      then match validate rest with
           | Some l => Some (extension :: l)
           | None => None
           end
      else None
  end.

(** The comparator of lines 76-93.  [None] is a result that is [undefined]
    (two entries without a processing hook) or [NaN] (a processing entry
    whose priority is [undefined]). *)
Definition compareFn (a b : IPlugin) : option Z :=
  let typeExtA := ITelemetryPlugin.processTelemetry a in
  let typeExtB := ITelemetryPlugin.processTelemetry b in
  if typeExtA && typeExtB then
    match ITelemetryPlugin.priority a, ITelemetryPlugin.priority b with
    | Some pa, Some pb => Some (pa - pb)
    | _, _ => None
    end
  else if typeExtA && negb typeExtB then Some 1
  else if negb typeExtA && typeExtB then Some (-1)
  else None.

(** [Array.prototype.sort]: a comparator result that is [undefined] or [NaN]
    counts as [+0], and entries that compare equal keep their order. *)
Definition comesAfter (a b : IPlugin) : bool :=
  match compareFn a b with
  | Some v => 0 <? v
  | None => false
  end.

(** The sort itself, as a stable insertion sort.  The engine is free in how
    it sorts, but for a comparator that orders the entries consistently the
    result is determined: the sorted list in which entries that compare
    equal keep their order. *)
Fixpoint insert (x : IPlugin) (l : list IPlugin) : list IPlugin :=
  match l with
  | [] => [x]
  | y :: l' => if comesAfter x y then y :: insert x l' else x :: y :: l'
  end.

Definition sort (l : list IPlugin) : list IPlugin := foldr insert [] l.

(** Lines 96-107: [priority] is the object used as a map from a priority
    to the identifier first seen with it.  The guard [t && t.priority] lets
    an entry through when its priority is neither [undefined] nor 0. *)
Fixpoint warnSamePriority (exts : list IPlugin) (priority : gmap Z string) : list Call :=
  match exts with
  | [] => []
  | t :: rest =>
      match ITelemetryPlugin.priority t with
      | Some p =>
          if truthy_number (Some p) then
            match priority !! p with
            | Some seen =>
                warnToConsole ("Two extensions have same priority" +:+ seen +:+ ", "
                               +:+ ITelemetryPlugin.identifier t)
                :: warnSamePriority rest priority
            | None => warnSamePriority rest (<[p := ITelemetryPlugin.identifier t]> priority)
            end
          else warnSamePriority rest priority
      | None => warnSamePriority rest priority
      end
  end.

(** Lines 109-124: the loop runs over every index but the last; the local
    [c] it assigns before [break] is never read. *)
Fixpoint setNextPlugins `{Collaborators} (exts : list IPlugin) : list Call :=
  match exts with
  | curr :: (next :: _) as rest =>
      if negb (ITelemetryPlugin.processTelemetry curr) then setNextPlugins rest
      else if bool_decide (ITelemetryPlugin.priority curr = Some ChannelControllerPriority)
      then []
      else setNextPlugin curr next :: setNextPlugins rest
  | _ => []
  end.

(** Lines 129-135: the [initialize] hook of every entry whose priority is
    below the priority of the channel controller is called, in list order. *)
Definition initializeRemaining `{Collaborators} (exts : list IPlugin) : list Call :=
  plugin_initialize
  <$> filter (λ e, number_lt (ITelemetryPlugin.priority e) ChannelControllerPriority = true)
        exts.

(** The channel controller as an entry of the extension list. *)
Definition channelController `{Collaborators} : IPlugin := {|
  ITelemetryPlugin.identifier := ChannelControllerIdentifier;
  ITelemetryPlugin.priority := Some ChannelControllerPriority;
  ITelemetryPlugin.initialize := true;
  ITelemetryPlugin.processTelemetry := true
|}.

(** Lines 47-54: the configuration object after the core has filled in
    [extensions] and [extensionConfig]. *)
Definition adoptConfig (config : IConfiguration) : IConfiguration := {|
  IConfiguration.instrumentationKey := IConfiguration.instrumentationKey config;
  IConfiguration.extensions := Some (default [] (IConfiguration.extensions config));
  IConfiguration.extensionConfig :=
    Some (<["NotificationManager" := NotificationManagerRef]>
            (default ∅ (IConfiguration.extensionConfig config)));
  IConfiguration.diagnosticLogInterval := IConfiguration.diagnosticLogInterval config
|}.

(** Assignments to the fields of [this]. *)
Definition set_config (v : option IConfiguration) (c : t) : t :=
  {| config := v; logger := logger c; _extensions := _extensions c;
     _notificationManager := _notificationManager c;
     _isInitialized := _isInitialized c; _channelController := _channelController c |}.

Definition set_logger (v : option DiagnosticLogger) (c : t) : t :=
  {| config := config c; logger := v; _extensions := _extensions c;
     _notificationManager := _notificationManager c;
     _isInitialized := _isInitialized c; _channelController := _channelController c |}.

Definition set_extensions (v : list (option IPlugin)) (c : t) : t :=
  {| config := config c; logger := logger c; _extensions := v;
     _notificationManager := _notificationManager c;
     _isInitialized := _isInitialized c; _channelController := _channelController c |}.

Definition set_notificationManager (v : option NotificationManager) (c : t) : t :=
  {| config := config c; logger := logger c; _extensions := _extensions c;
     _notificationManager := v;
     _isInitialized := _isInitialized c; _channelController := _channelController c |}.

Definition set_isInitialized (v : bool) (c : t) : t :=
  {| config := config c; logger := logger c; _extensions := _extensions c;
     _notificationManager := _notificationManager c;
     _isInitialized := v; _channelController := _channelController c |}.

Definition set_channelController (v : ChannelController) (c : t) : t :=
  {| config := config c; logger := logger c; _extensions := _extensions c;
     _notificationManager := _notificationManager c;
     _isInitialized := _isInitialized c; _channelController := v |}.

Definition modify (f : t -> t) : M unit :=
  λ σ, (Normal tt, {| this := f (this σ); clock := clock σ |}, []).

(** [this._channelController.initialize(this.config, this, this._extensions)] *)
Definition ChannelController_initialize `{Collaborators}
    (config : IConfiguration) (extensions : list IPlugin) : M unit :=
  calls [channelController_initialize extensions];;
  modify (set_channelController
            {| ChannelController.ChannelControls := channelQueue config extensions |}).

Definition getTransmissionControls : M (list (list IPlugin)) :=
  let* this := get in
  ret (ChannelController.ChannelControls (_channelController this)).

Definition initialize `{Collaborators}
    (config : option IConfiguration) (extensions : list (option IPlugin)) : M unit :=
  let* this := get in
  if _isInitialized this
  then throw (Error "Core should not be initialized more than once") else
  match config with
  | None => throw (Error "Please provide instrumentation key")
  | Some config =>
      if CoreUtils.isNullOrUndefined (IConfiguration.instrumentationKey config)
      then throw (Error "Please provide instrumentation key") else
      let config := adoptConfig config in
      modify (set_config (Some config));;
      modify (set_notificationManager (Some NotificationManager.new));;
      modify (set_logger (Some DiagnosticLogger.new));;
      modify (λ this, set_extensions
                        (_extensions this ++ extensions
                         ++ default [] (IConfiguration.extensions config)) this);;
      let* this := get in
      match validate (_extensions this) with
      | None => throw (Error validationError)
      | Some valid =>
          let sorted := sort (valid ++ [channelController]) in
          modify (set_extensions (Some <$> sorted));;
          calls (warnSamePriority sorted ∅);;
          calls (setNextPlugins sorted);;
          ChannelController_initialize config sorted;;
          calls (initializeRemaining sorted);;
          let* controls := getTransmissionControls in
          if Z.of_nat (length controls) =? 0
          then throw (Error "No channels available")
          else modify (set_isInitialized true)
      end
  end.

(** ** Tracking *)

Definition _notififyInvalidEvent (telemetryItem : option ITelemetryItem) : M unit :=
  let* this := get in
  let* manager := deref (_notificationManager this) in
  calls (notificationManager_eventsDiscarded [telemetryItem] InvalidEvent
         :: NotificationManager.eventsDiscarded [telemetryItem] InvalidEvent manager).

Definition _validateTelmetryItem (telemetryItem : ITelemetryItem) : M unit :=
  (if CoreUtils.isNullOrUndefined (ITelemetryItem.name telemetryItem)
   then _notififyInvalidEvent (Some telemetryItem);;
        throw (Error "telemetry name required")
   else ret tt);;
  (if CoreUtils.isNullOrUndefined (ITelemetryItem.time telemetryItem)
   then _notififyInvalidEvent (Some telemetryItem);;
        throw (Error "telemetry timestamp required")
   else ret tt);;
  (if CoreUtils.isNullOrUndefined (ITelemetryItem.iKey telemetryItem)
   then _notififyInvalidEvent (Some telemetryItem);;
        throw (Error "telemetry instrumentationKey required")
   else ret tt).

Definition set_iKey (v : option string) (i : ITelemetryItem) : ITelemetryItem :=
  {| ITelemetryItem.name := ITelemetryItem.name i; ITelemetryItem.iKey := v;
     ITelemetryItem.time := ITelemetryItem.time i; ITelemetryItem.ver := ITelemetryItem.ver i;
     ITelemetryItem.baseType := ITelemetryItem.baseType i;
     ITelemetryItem.baseData := ITelemetryItem.baseData i |}.

Definition set_time (v : option string) (i : ITelemetryItem) : ITelemetryItem :=
  {| ITelemetryItem.name := ITelemetryItem.name i; ITelemetryItem.iKey := ITelemetryItem.iKey i;
     ITelemetryItem.time := v; ITelemetryItem.ver := ITelemetryItem.ver i;
     ITelemetryItem.baseType := ITelemetryItem.baseType i;
     ITelemetryItem.baseData := ITelemetryItem.baseData i |}.

Definition set_ver (v : option string) (i : ITelemetryItem) : ITelemetryItem :=
  {| ITelemetryItem.name := ITelemetryItem.name i; ITelemetryItem.iKey := ITelemetryItem.iKey i;
     ITelemetryItem.time := ITelemetryItem.time i; ITelemetryItem.ver := v;
     ITelemetryItem.baseType := ITelemetryItem.baseType i;
     ITelemetryItem.baseData := ITelemetryItem.baseData i |}.

(** Lines 154-165 of [track]: the defaults written into the item. *)
Definition applyDefaults `{Collaborators} (telemetryItem : ITelemetryItem) : M ITelemetryItem :=
  let* item1 :=
    (if falsy_string (ITelemetryItem.iKey telemetryItem)
     then let* this := get in
          let* config := deref (config this) in
          ret (set_iKey (IConfiguration.instrumentationKey config) telemetryItem)
     else ret telemetryItem) in
  let* item2 :=
    (if falsy_string (ITelemetryItem.time item1)
     then let* now := Date_now in ret (set_time (Some now) item1)
     else ret item1) in
  ret (if CoreUtils.isNullOrUndefined (ITelemetryItem.ver item2)
       then set_ver (Some "4.0") item2
       else item2).

(** What the processing hook of a plugin leaves in [logger.queue]. *)
Definition appendLogs (messages : list _InternalLogMessage) (c : t) : t :=
  match logger c with
  | Some l =>
      set_logger (Some {| DiagnosticLogger.queue := DiagnosticLogger.queue l ++ messages |}) c
  | None => c
  end.

(** Lines 171-179 of [track]: the item goes to the first entry that has a
    processing hook, and to no other. *)
Fixpoint dispatch `{Collaborators}
    (exts : list (option IPlugin)) (item : ITelemetryItem) : M unit :=
  match exts with
  | [] => ret tt
  | None :: _ => throw TypeError
  | Some ext :: rest =>
      if ITelemetryPlugin.processTelemetry ext
      then calls [processTelemetry ext item];;
           modify (appendLogs (logged ext item))
      else dispatch rest item
  end.

Definition track `{Collaborators} (telemetryItem : option ITelemetryItem) : M unit :=
  match telemetryItem with
  | None =>
      _notififyInvalidEvent None;;
      throw (Error "Invalid telemetry item")
  | Some telemetryItem =>
      let* item := applyDefaults telemetryItem in
      _validateTelmetryItem item;;
      let* this := get in
      dispatch (_extensions this) item
  end.

(** ** Listeners *)

Definition addNotificationListener (listener : INotificationListener) : M unit :=
  let* this := get in
  let* manager := deref (_notificationManager this) in
  modify (set_notificationManager
            (Some (NotificationManager.addNotificationListener listener manager))).

Definition removeNotificationListener (listener : INotificationListener) : M unit :=
  let* this := get in
  let* manager := deref (_notificationManager this) in
  modify (set_notificationManager
            (Some (NotificationManager.removeNotificationListener listener manager))).

(** ** Internal logs *)

(** The item built at lines 213-219. *)
Definition internalLogItem `{Collaborators}
    (logMessage : _InternalLogMessage) (iKey : option string) (now : string) : ITelemetryItem := {|
  ITelemetryItem.name :=
    Some ("InternalMessageId: " +:+ pretty (_InternalLogMessage.messageId logMessage));
  ITelemetryItem.iKey := iKey;
  ITelemetryItem.time := Some now;
  ITelemetryItem.ver := None;
  ITelemetryItem.baseType := Some dataType;
  ITelemetryItem.baseData := Some [("message", _InternalLogMessage.message logMessage)]
|}.

(** The callback of [queue.forEach] at lines 212-222. *)
Definition trackLogMessage `{Collaborators} (logMessage : _InternalLogMessage) : M unit :=
  let* this := get in
  let* config := deref (config this) in
  let* now := Date_now in
  track (Some (internalLogItem logMessage (IConfiguration.instrumentationKey config) now)).

(** [queue.forEach]: the indices below the length the array had when the
    loop started are visited in order, and each element is read from the
    array when its turn comes. *)
Fixpoint forEach_queue `{Collaborators} (count index : nat) : M unit :=
  match count with
  | O => ret tt
  | S count' =>
      let* this := get in
      let* logger := deref (logger this) in
      match DiagnosticLogger.queue logger !! index with
      | Some logMessage => trackLogMessage logMessage
      | None => ret tt
      end;;
      forEach_queue count' (S index)
  end.

(** The function handed to [setInterval] at lines 209-224. *)
Definition flushInternalLogs `{Collaborators} : M unit :=
  let* this := get in
  let* logger := deref (logger this) in
  forEach_queue (length (DiagnosticLogger.queue logger)) 0;;
  modify (set_logger (Some {| DiagnosticLogger.queue := [] |})).

(** [pollInternalLogs] hands a callback and a period to [setInterval]; the
    pair stands for the timer that it returns. *)
Definition pollInternalLogs `{Collaborators} : M (M unit * Z) :=
  let* this := get in
  let* config := deref (config this) in
  let interval :=
    match IConfiguration.diagnosticLogInterval config with
    | Some interval => if negb (0 <? interval) then 10000 else interval
    | None => 10000
    end in
  ret (flushInternalLogs, interval).

(** ** Notions used to state the properties *)

(** What one call of [_notififyInvalidEvent] does when the notification
    manager exists: the call on the manager, then the manager's calls on
    the listeners. *)
Definition invalidEventCalls (telemetryItem : option ITelemetryItem)
    (manager : NotificationManager) : list Call :=
  notificationManager_eventsDiscarded [telemetryItem] InvalidEvent
  :: NotificationManager.eventsDiscarded [telemetryItem] InvalidEvent manager.

(** The message of the first required field that an item lacks, in the
    order in which [_validateTelmetryItem] looks at them. *)
Definition missingField (telemetryItem : ITelemetryItem) : option string :=
  if CoreUtils.isNullOrUndefined (ITelemetryItem.name telemetryItem)
  then Some "telemetry name required"
  else if CoreUtils.isNullOrUndefined (ITelemetryItem.time telemetryItem)
  then Some "telemetry timestamp required"
  else if CoreUtils.isNullOrUndefined (ITelemetryItem.iKey telemetryItem)
  then Some "telemetry instrumentationKey required"
  else None.

(** An entry that the comparator can place: if it has a processing hook,
    its priority is a number. *)
Definition comparable (e : IPlugin) : Prop :=
  ITelemetryPlugin.processTelemetry e = true → is_Some (ITelemetryPlugin.priority e).

(** [a] may stand before [b] in the sorted list. *)
Definition mayPrecede (a b : IPlugin) : Prop := comesAfter a b = false.

(** An entry with a processing hook whose priority is below the priority of
    the channel controller. *)
Definition belowController `{Collaborators} (e : IPlugin) : Prop :=
  ITelemetryPlugin.processTelemetry e = true
  ∧ number_lt (ITelemetryPlugin.priority e) ChannelControllerPriority = true.

#[global] Instance belowController_dec `{Collaborators} (e : IPlugin) :
  Decision (belowController e).
Proof. unfold belowController. apply _. Defined.

(** The arguments of the [setNextPlugin] calls made on [self], oldest first. *)
Definition successors (self : IPlugin) (cs : list Call) : list IPlugin :=
  omap (λ c, match c with
             | setNextPlugin curr next => if decide (curr = self) then Some next else None
             | _ => None
             end) cs.

(** [next] is the entry of the pipeline with the next-higher priority after
    [self]: it has a processing hook and a higher priority than [self], and
    no entry with a processing hook has a priority strictly between. *)
Definition nextHigher (pipeline : list IPlugin) (self next : IPlugin) : Prop :=
  next ∈ pipeline
  ∧ ITelemetryPlugin.processTelemetry next = true
  ∧ ∃ z z', ITelemetryPlugin.priority self = Some z
            ∧ ITelemetryPlugin.priority next = Some z'
            ∧ z < z'
            ∧ ∀ e ze, e ∈ pipeline → ITelemetryPlugin.processTelemetry e = true →
                      ITelemetryPlugin.priority e = Some ze → ¬ (z < ze < z').

(** The item that [track] validates and dispatches: the item it was given
    with the defaults of lines 154-165 written into it, when the
    configuration is [c] and the clock reads [now]. *)
Definition withDefaults (c : IConfiguration) (now : string)
    (telemetryItem : ITelemetryItem) : ITelemetryItem :=
  let item1 := if falsy_string (ITelemetryItem.iKey telemetryItem)
               then set_iKey (IConfiguration.instrumentationKey c) telemetryItem
               else telemetryItem in
  let item2 := if falsy_string (ITelemetryItem.time item1)
               then set_time (Some now) item1 else item1 in
  if CoreUtils.isNullOrUndefined (ITelemetryItem.ver item2)
  then set_ver (Some "4.0") item2 else item2.

(** The discard notifications that [listener] has received, oldest first. *)
Definition discardsReceived (listener : INotificationListener) (cs : list Call)
    : list (list (option ITelemetryItem) * EventsDiscardedReason) :=
  omap (λ c, match c with
             | listener_eventsDiscarded l events reason =>
                 if decide (l = listener) then Some (events, reason) else None
             | _ => None
             end) cs.

(** How many times [listener] is registered with the manager. *)
Definition registrations (listener : INotificationListener) (manager : NotificationManager) : nat :=
  length (filter (λ l, l = listener) (NotificationManager.listeners manager)).

(** The messages written with [logger.warnToConsole], oldest first. *)
Definition warnings (cs : list Call) : list string :=
  omap (λ c, match c with
             | warnToConsole message => Some message
             | _ => None
             end) cs.

(** [c'] is [c] except that messages may have been appended to the queue of
    the logger. *)
Definition logsAppended (c c' : t) : Prop :=
  config c' = config c
  ∧ _extensions c' = _extensions c
  ∧ _notificationManager c' = _notificationManager c
  ∧ _isInitialized c' = _isInitialized c
  ∧ _channelController c' = _channelController c
  ∧ match logger c, logger c' with
    | Some l, Some l' => ∃ extra, DiagnosticLogger.queue l' = DiagnosticLogger.queue l ++ extra
    | None, None => True
    | _, _ => False
    end.

(** The flush as the specification words it: the messages that are in the
    queue when the flush starts are converted and tracked one after the
    other, then the queue is emptied. *)
Fixpoint trackAll `{Collaborators} (messages : list _InternalLogMessage) : M unit :=
  match messages with
  | [] => ret tt
  | logMessage :: rest => trackLogMessage logMessage;; trackAll rest
  end.

Definition flushSnapshot `{Collaborators} : M unit :=
  let* this := get in
  let* logger := deref (logger this) in
  trackAll (DiagnosticLogger.queue logger);;
  modify (set_logger (Some {| DiagnosticLogger.queue := [] |})).

(** The states an instance can be in: it is constructed, then its methods
    are called, the timer of [pollInternalLogs] fires, and collaborators
    queue diagnostic messages, in any order. *)
Inductive reachable `{Collaborators} : Runtime → Prop :=
| reachable_constructor (n : nat) :
    reachable {| this := constructor; clock := n |}
| reachable_initialize (σ : Runtime) config extensions :
    reachable σ → reachable (final (initialize config extensions σ))
| reachable_track (σ : Runtime) telemetryItem :
    reachable σ → reachable (final (track telemetryItem σ))
| reachable_addNotificationListener (σ : Runtime) listener :
    reachable σ → reachable (final (addNotificationListener listener σ))
| reachable_removeNotificationListener (σ : Runtime) listener :
    reachable σ → reachable (final (removeNotificationListener listener σ))
| reachable_flushInternalLogs (σ : Runtime) :
    reachable σ → reachable (final (flushInternalLogs σ))
| reachable_logged (σ : Runtime) messages :
    reachable σ → reachable {| this := appendLogs messages (this σ); clock := clock σ |}.

(** What holds of an initialized instance: it has a configuration with an
    instrumentation key, a notification manager and a logger, and its
    extension list is free of null entries and holds the channel
    controller. *)
Definition ready `{Collaborators} (c : t) : Prop :=
  (∃ cfg, config c = Some cfg ∧ is_Some (IConfiguration.instrumentationKey cfg))
  ∧ is_Some (_notificationManager c)
  ∧ is_Some (logger c)
  ∧ ∃ sorted, _extensions c = Some <$> sorted ∧ channelController ∈ sorted.

(** The state after one more reading of the clock. *)
Definition tick (σ : Runtime) : Runtime := {| this := this σ; clock := S (clock σ) |}.

(** The state after the processing hook of [ext] has handled [item]. *)
Definition processed `{Collaborators}
    (ext : IPlugin) (item : ITelemetryItem) (σ : Runtime) : Runtime :=
  {| this := appendLogs (logged ext item) (this σ); clock := clock σ |}.

End AppInsightsCore.

(** ** A sample set of collaborators

    A channel controller with priority 500 whose only channel group is made
    of the extensions placed after it, a clock that counts its readings, and
    a pipeline that queues one diagnostic message per item it processes. *)

Definition sampleChannels (extensions : list IPlugin) : list (list IPlugin) :=
  match filter (λ e, number_lt (Some 500) (default 0 (ITelemetryPlugin.priority e)) = true)
               extensions with
  | [] => []
  | group => [group]
  end.

Definition sampleLogMessage : _InternalLogMessage :=
  {| _InternalLogMessage.messageId := 72; _InternalLogMessage.message := "item processed" |}.

Definition sampleCollaborators : Collaborators := {|
  ChannelControllerPriority := 500;
  ChannelControllerIdentifier := "ChannelControllerPlugin";
  channelQueue := λ _ extensions, sampleChannels extensions;
  toISOString := λ n, "T" +:+ pretty n;
  dataType := "MessageData";
  logged := λ _ _, [sampleLogMessage]
|}.

Definition processingPlugin (identifier : string) (priority : Z) : IPlugin := {|
  ITelemetryPlugin.identifier := identifier;
  ITelemetryPlugin.priority := Some priority;
  ITelemetryPlugin.initialize := true;
  ITelemetryPlugin.processTelemetry := true
|}.

Definition initOnlyPlugin (identifier : string) : IPlugin := {|
  ITelemetryPlugin.identifier := identifier;
  ITelemetryPlugin.priority := None;
  ITelemetryPlugin.initialize := true;
  ITelemetryPlugin.processTelemetry := false
|}.

Definition sampleConfig (instrumentationKey : option string) : IConfiguration := {|
  IConfiguration.instrumentationKey := instrumentationKey;
  IConfiguration.extensions := None;
  IConfiguration.extensionConfig := None;
  IConfiguration.diagnosticLogInterval := Some 0
|}.

Definition fresh : AppInsightsCore.Runtime :=
  {| AppInsightsCore.this := AppInsightsCore.constructor; AppInsightsCore.clock := 0 |}.

(** A core initialized with an initialization-only plugin, two processing
    plugins and one channel. *)
Definition samplePlugins : list IPlugin :=
  [processingPlugin "second" 20; initOnlyPlugin "setup";
   processingPlugin "channel" 1000; processingPlugin "first" 10].

Definition sampleRun : Completion unit * AppInsightsCore.Runtime * list Call :=
  @AppInsightsCore.initialize sampleCollaborators (Some (sampleConfig (Some "ikey")))
    (Some <$> samplePlugins) fresh.

Definition sampleCore : AppInsightsCore.Runtime := AppInsightsCore.final sampleRun.

Definition sampleItem : ITelemetryItem := {|
  ITelemetryItem.name := Some "pageView";
  ITelemetryItem.iKey := Some "ikey";
  ITelemetryItem.time := None;
  ITelemetryItem.ver := None;
  ITelemetryItem.baseType := None;
  ITelemetryItem.baseData := None
|}.


(** The sample core after it has tracked one item: the pipeline has queued
    one diagnostic message. *)
Definition sampleCoreLogged : AppInsightsCore.Runtime :=
  AppInsightsCore.final (@AppInsightsCore.track sampleCollaborators (Some sampleItem) sampleCore).

Definition discardListener : INotificationListener :=
  {| INotificationListener.ref := 1; INotificationListener.eventsDiscarded := true |}.

Definition sentListener : INotificationListener :=
  {| INotificationListener.ref := 2; INotificationListener.eventsDiscarded := false |}.

(** The sample core after [discardListener] has been registered twice and
    [sentListener], which does not handle discards, once. *)
Definition sampleCoreListening : AppInsightsCore.Runtime :=
  AppInsightsCore.final
    (AppInsightsCore.addNotificationListener sentListener
       (AppInsightsCore.final
          (AppInsightsCore.addNotificationListener discardListener
             (AppInsightsCore.final
                (AppInsightsCore.addNotificationListener discardListener sampleCore))))).

(** Two processing plugins with priority 0 and one channel. *)
Definition samePriorityZeroRun : Completion unit * AppInsightsCore.Runtime * list Call :=
  @AppInsightsCore.initialize sampleCollaborators (Some (sampleConfig (Some "ikey")))
    [Some (processingPlugin "A" 0); Some (processingPlugin "B" 0);
     Some (processingPlugin "channel" 1000)]
    fresh.

(** A configuration whose instrumentation key is the empty string. *)
Definition emptyKeyRun : Completion unit * AppInsightsCore.Runtime * list Call :=
  @AppInsightsCore.initialize sampleCollaborators (Some (sampleConfig (Some "")))
    [Some (processingPlugin "channel" 1000)] fresh.

(** No extension stands after the channel controller. *)
Definition noChannelRun : Completion unit * AppInsightsCore.Runtime * list Call :=
  @AppInsightsCore.initialize sampleCollaborators (Some (sampleConfig (Some "ikey")))
    [Some (processingPlugin "first" 10)] fresh.

(** One entry of the extension list is null. *)
Definition nullExtensionRun : Completion unit * AppInsightsCore.Runtime * list Call :=
  @AppInsightsCore.initialize sampleCollaborators (Some (sampleConfig (Some "ikey")))
    [Some (processingPlugin "channel" 1000); None] fresh.

(** Two processing plugins with priority 20 and one channel. *)
Definition samePriorityRun : Completion unit * AppInsightsCore.Runtime * list Call :=
  @AppInsightsCore.initialize sampleCollaborators (Some (sampleConfig (Some "ikey")))
    [Some (processingPlugin "A" 20); Some (processingPlugin "B" 20);
     Some (processingPlugin "channel" 1000)]
    fresh.

(** A second attempt after [noChannelRun], now with a channel. *)
Definition retryRun : Completion unit * AppInsightsCore.Runtime * list Call :=
  @AppInsightsCore.initialize sampleCollaborators (Some (sampleConfig (Some "ikey")))
    [Some (processingPlugin "channel" 1000)] (AppInsightsCore.final noChannelRun).

(** The instance after [noChannelRun] and the registration of
    [discardListener]. *)
Definition noChannelListening : AppInsightsCore.Runtime :=
  AppInsightsCore.final
    (AppInsightsCore.addNotificationListener discardListener
       (AppInsightsCore.final noChannelRun)).

(** ** Further notions used to state properties of the core *)

Module CoreNotions.
Import AppInsightsCore.

(** An entry of the extension list that passes the validation of lines
    62-70: it is not null and it has an [initialize] callback. *)
Definition validExtension (e : option IPlugin) : Prop :=
  ∃ p, e = Some p ∧ ITelemetryPlugin.initialize p = true.

(** The state after the calls [initialize(config, extensions)] of a list of
    attempts, made one after the other. *)
Fixpoint retries `{Collaborators}
    (attempts : list (option IConfiguration * list (option IPlugin))) (σ : Runtime) : Runtime :=
  match attempts with
  | [] => σ
  | (config, extensions) :: rest => retries rest (final (initialize config extensions σ))
  end.

(** The extensions whose [initialize] hook has been called, oldest first. *)
Definition initialized (cs : list Call) : list IPlugin :=
  omap (λ c, match c with
             | plugin_initialize e => Some e
             | _ => None
             end) cs.

(** The processing hooks that have been called, with the item each was
    given, oldest first. *)
Definition dispatched (cs : list Call) : list (IPlugin * ITelemetryItem) :=
  omap (λ c, match c with
             | processTelemetry e item => Some (e, item)
             | _ => None
             end) cs.

(** The [eventsDiscarded] calls made on the notification manager. *)
Definition discards (cs : list Call)
    : list (list (option ITelemetryItem) * EventsDiscardedReason) :=
  omap (λ c, match c with
             | notificationManager_eventsDiscarded events reason => Some (events, reason)
             | _ => None
             end) cs.

(** The priorities that the duplicate check of lines 96-107 looks at: those
    that are neither [undefined] nor 0. *)
Definition checkedPriorities (exts : list IPlugin) : list Z :=
  filter (λ z, z ≠ 0) (omap ITelemetryPlugin.priority exts).

(** The priority of [a] is a number and is at most the priority of [b]. *)
Definition priorityLe (a b : IPlugin) : Prop :=
  ∃ za zb, ITelemetryPlugin.priority a = Some za
           ∧ ITelemetryPlugin.priority b = Some zb ∧ za ≤ zb.

(** [c'] has the configuration, the extension list, the channel controller
    and the initialized flag of [c]. *)
Definition samePipeline (c c' : t) : Prop :=
  config c' = config c
  ∧ _extensions c' = _extensions c
  ∧ _channelController c' = _channelController c
  ∧ _isInitialized c' = _isInitialized c.

(** What can happen to an instance: one of its public methods is called,
    the timer of [pollInternalLogs] fires, or a collaborator queues
    diagnostic messages. *)
Inductive Event :=
| call_initialize (config : option IConfiguration) (extensions : list (option IPlugin))
| call_track (telemetryItem : option ITelemetryItem)
| call_addNotificationListener (listener : INotificationListener)
| call_removeNotificationListener (listener : INotificationListener)
| timer_fires
| collaborator_logs (messages : list _InternalLogMessage).

(** The state after one event, whether the call returns or throws. *)
Definition after `{Collaborators} (e : Event) (σ : Runtime) : Runtime :=
  match e with
  | call_initialize config extensions => final (initialize config extensions σ)
  | call_track telemetryItem => final (track telemetryItem σ)
  | call_addNotificationListener listener => final (addNotificationListener listener σ)
  | call_removeNotificationListener listener => final (removeNotificationListener listener σ)
  | timer_fires => final (flushInternalLogs σ)
  | collaborator_logs messages =>
      {| this := appendLogs messages (this σ); clock := clock σ |}
  end.

(** The state after a list of events, oldest first. *)
Fixpoint afterAll `{Collaborators} (es : list Event) (σ : Runtime) : Runtime :=
  match es with
  | [] => σ
  | e :: rest => afterAll rest (after e σ)
  end.

Definition isInitialize (e : Event) : bool :=
  match e with
  | call_initialize _ _ => true
  | _ => false
  end.


End CoreNotions.

(** * [stringUtils] of the dependencies extension *)

Module stringUtils.
Section GetLength.

(** The values of the language are left open: [V] is the type of what a
    [length] property can hold, [isNaN] is the global function of that name
    on them, and [ofNat n] is the number [n]. *)
Context {V : Type} (isNaN : V → bool) (ofNat : nat → V).






End GetLength.
End stringUtils.

(** * The rollup configuration of the perfmarkmeasure extension *)

Module RollupConfig.

(** [s.split(sep)] for a separator of one character. *)
Fixpoint split (sep : Ascii.ascii) (s : string) : list string :=
  match s with
  | EmptyString => [EmptyString]
  | String c rest =>
      if Ascii.eqb c sep then EmptyString :: split sep rest
      else match split sep rest with
           | part :: parts => String c part :: parts
           | [] => [String c EmptyString]
           end
  end.

(** [lines.join(sep)] *)
Fixpoint join (sep : string) (lines : list string) : string :=
  match lines with
  | [] => ""
  | [line] => line
  | line :: rest => line +:+ sep +:+ join sep rest
  end.

Definition newline : string := String (Ascii.ascii_of_nat 10) EmptyString.

(** The plugins that the configurations list; [nodeResolve] with the
    options [browser] and [preferBuiltins] when it is given some, [uglify]
    with its preamble. *)
Inductive Plugin :=
| dynamicRemove
| replace (values : list (string * string))
| importCheck (exclude : list string)
| nodeResolve (options : option (bool * bool))
| doCleanup
| es3Poly
| es3Check
| uglify (preamble : string).

#[global] Instance Plugin_eq_dec : EqDecision Plugin.
Proof. solve_decision. Defined.

Record Output := {
  file : string;
  banner : string;
  format : string;
  name : string;
  extend : bool;
  freeze : bool;
  sourcemap : bool
}.

Record Config := {
  input : string;
  output : Output;
  plugins : list Plugin
}.

Definition outputName : string := "applicationinsights-perfmarkmeasure-js".

Definition verParts (version : string) : list string :=
  split "."%char (default EmptyString (head (split "-"%char version))).

Definition bannerOf (version : string) : string :=
  join newline [
    "/*!";
    " * Application Insights JavaScript SDK - Performance Mark and Measure Manager plugin, "
      +:+ version;
    " * Copyright (c) Microsoft and contributors. All rights reserved.";
    " */"
  ].

Definition replaceValues : list (string * string) := [
  ("// Copyright (c) Microsoft Corporation. All rights reserved.", "");
  ("// Licensed under the MIT License.", "")
].

Definition set_file (f : string) (o : Output) : Output :=
  {| file := f; banner := banner o; format := format o; name := name o;
     extend := extend o; freeze := freeze o; sourcemap := sourcemap o |}.

(** [version] is the constant of the module that the banner is built from;
    [format] and [postfix] are optional: ['umd'] and [''] when absent. *)
Definition browserRollupConfigFactory (version : string) (isProduction : bool)
    (libVersion : string) (format postfix : option string) : Config :=
  let format := default "umd" format in
  let postfix := default "" postfix in
  let browserRollupConfig := {|
    input := "dist-esm/" +:+ outputName +:+ ".js";
    output := {|
      file := "browser/ai.prfmm-mgr." +:+ libVersion +:+ postfix +:+ ".js";
      banner := bannerOf version;
      format := format;
      name := "Microsoft.ApplicationInsights";
      extend := true;
      freeze := false;
      sourcemap := true
    |};
    plugins := [
      dynamicRemove;
      replace replaceValues;
      importCheck ["applicationinsights-perfmarkmeasure-js"];
      nodeResolve (Some (false, false));
      doCleanup;
      es3Poly;
      es3Check
    ]
  |} in
  if isProduction
  then {| input := input browserRollupConfig;
          output := set_file ("browser/ai.prfmm-mgr." +:+ libVersion +:+ postfix +:+ ".min.js")
                             (output browserRollupConfig);
          plugins := plugins browserRollupConfig ++ [uglify (bannerOf version)] |}
  else browserRollupConfig.

Definition nodeUmdRollupConfigFactory (version : string) (isProduction : bool) : Config :=
  let nodeRollupConfig := {|
    input := "dist-esm/" +:+ outputName +:+ ".js";
    output := {|
      file := "dist/" +:+ outputName +:+ ".js";
      banner := bannerOf version;
      format := "umd";
      name := "Microsoft.ApplicationInsights";
      extend := true;
      freeze := false;
      sourcemap := true
    |};
    plugins := [
      dynamicRemove;
      replace replaceValues;
      importCheck ["applicationinsights-perfmarkmeasure-js"];
      nodeResolve None;
      doCleanup;
      es3Poly;
      es3Check
    ]
  |} in
  if isProduction
  then {| input := input nodeRollupConfig;
          output := set_file ("dist/" +:+ outputName +:+ ".min.js") (output nodeRollupConfig);
          plugins := plugins nodeRollupConfig ++ [uglify (bannerOf version)] |}
  else nodeRollupConfig.

(** What evaluating the module does, for the version that [package.json]
    gives: it throws a string, or it calls [updateDistEsmFiles] with the
    replacements and the banner and exports its list of configurations. *)
Inductive Evaluation :=
| throws (value : string)
| exports (updateDistEsmFiles : list (string * string) * string) (configs : list Config).

Definition evaluate (version : string) : Evaluation :=
  if negb (length (verParts version) =? 3)%nat
  then throws ("Invalid Version! [" +:+ version +:+ "]")
  else exports (replaceValues, bannerOf version) [
    browserRollupConfigFactory version true version None None;
    browserRollupConfigFactory version false version None None;
    browserRollupConfigFactory version true version (Some "cjs") (Some ".cjs");
    browserRollupConfigFactory version false version (Some "cjs") (Some ".cjs");
    browserRollupConfigFactory version true version (Some "iife") (Some ".gbl");
    browserRollupConfigFactory version false version (Some "iife") (Some ".gbl");
    nodeUmdRollupConfigFactory version true;
    nodeUmdRollupConfigFactory version false
  ].

(** ** Notions used to state the properties *)

(** The number of dots among the characters of [s] that come before its
    first hyphen. *)
Fixpoint dotsBeforeHyphen (s : string) : nat :=
  match s with
  | EmptyString => 0
  | String c rest =>
      if Ascii.eqb c "-"%char then 0
      else if Ascii.eqb c "."%char then S (dotsBeforeHyphen rest)
      else dotsBeforeHyphen rest
  end.

(** The configuration runs [uglify] as its last plugin. *)
Definition minifies (c : Config) : bool :=
  match last (plugins c) with
  | Some (uglify _) => true
  | _ => false
  end.

End RollupConfig.

(** ** Sample values for [GetLength] and for the rollup configuration *)


Definition sampleVersion : string := "2.5.4-beta.1".

Definition sampleExports : list RollupConfig.Config :=
  match RollupConfig.evaluate sampleVersion with
  | RollupConfig.exports _ configs => configs
  | RollupConfig.throws _ => []
  end.

(** * Properties *)

Import AppInsightsCore.

Ltac unfold_setters :=
  unfold set_config, set_logger, set_extensions, set_notificationManager,
         set_isInitialized, set_channelController in *.

Section Initialize.
Context `{!Collaborators}.

(** [initialize] as one case analysis: where it stops, the state it leaves
    and the calls it has made. *)
Lemma initialize_cases (config : option IConfiguration)
    (extensions : list (option IPlugin)) (σ : Runtime) :
  initialize config extensions σ =
  if _isInitialized (this σ)
  then (Throw (Error "Core should not be initialized more than once"), σ, [])
  else match config with
       | None => (Throw (Error "Please provide instrumentation key"), σ, [])
       | Some c =>
           match IConfiguration.instrumentationKey c with
           | None => (Throw (Error "Please provide instrumentation key"), σ, [])
           | Some _ =>
               let merged := _extensions (this σ) ++ extensions
                             ++ default [] (IConfiguration.extensions c) in
               match validate merged with
               | None =>
                   (Throw (Error validationError),
                    {| this := {| config := Some (adoptConfig c);
                                  logger := Some DiagnosticLogger.new;
                                  _extensions := merged;
                                  _notificationManager := Some NotificationManager.new;
                                  _isInitialized := false;
                                  _channelController := _channelController (this σ) |};
                       clock := clock σ |}, [])
               | Some valid =>
                   let sorted := sort (valid ++ [channelController]) in
                   let channels := channelQueue (adoptConfig c) sorted in
                   (match channels with
                    | [] => Throw (Error "No channels available")
                    | _ :: _ => Normal tt
                    end,
                    {| this := {| config := Some (adoptConfig c);
                                  logger := Some DiagnosticLogger.new;
                                  _extensions := Some <$> sorted;
                                  _notificationManager := Some NotificationManager.new;
                                  _isInitialized :=
                                    match channels with [] => false | _ :: _ => true end;
                                  _channelController :=
                                    {| ChannelController.ChannelControls := channels |} |};
                       clock := clock σ |},
                    warnSamePriority sorted ∅ ++ setNextPlugins sorted
                    ++ channelController_initialize sorted :: initializeRemaining sorted)
               end
           end
       end.
Proof.
  unfold initialize, bind, get, throw; simpl.
  destruct (_isInitialized (this σ)) eqn:Hinit; [done|].
  destruct config as [c|]; [|done].
  destruct (IConfiguration.instrumentationKey c) as [k|] eqn:Hkey; simpl; [|done].
  unfold bind; simpl.
  destruct (validate _) as [valid|]; simpl; unfold_setters; simpl; rewrite ?Hinit; [|done].
  destruct (channelQueue _ _) as [|g gs]; simpl; rewrite ?app_nil_r; done.
Qed.

(** The calls of each phase of [initialize]. *)
Lemma warnSamePriority_calls (exts : list IPlugin) (seen : gmap Z string) (c : Call) :
  c ∈ warnSamePriority exts seen → ∃ message, c = warnToConsole message.
Proof.
  revert seen. induction exts as [|t rest IH]; intros seen; simpl.
  - by intros ?%elem_of_nil.
  - repeat case_match; try apply IH.
    intros [->|?]%elem_of_cons; eauto.
Qed.

Lemma setNextPlugins_calls (exts : list IPlugin) (c : Call) :
  c ∈ setNextPlugins exts →
  ∃ curr next, c = setNextPlugin curr next ∧ curr ∈ exts
               ∧ ITelemetryPlugin.processTelemetry curr = true
               ∧ ITelemetryPlugin.priority curr ≠ Some ChannelControllerPriority.
Proof.
  induction exts as [|curr rest IH]; simpl; [by intros ?%elem_of_nil|].
  destruct rest as [|next rest]; [by intros ?%elem_of_nil|].
  destruct (ITelemetryPlugin.processTelemetry curr) eqn:Hproc; simpl.
  - case_bool_decide as Hprio; [by intros ?%elem_of_nil|].
    intros [->|Hin]%elem_of_cons.
    + exists curr, next. split_and!; [done|by left|done|done].
    + destruct (IH Hin) as (a & b & -> & ? & ? & ?).
      exists a, b. split_and!; [done|by right|done|done].
  - intros Hin. destruct (IH Hin) as (a & b & -> & ? & ? & ?).
    exists a, b. split_and!; [done|by right|done|done].
Qed.

Lemma initializeRemaining_calls (exts : list IPlugin) (c : Call) :
  c ∈ initializeRemaining exts ↔
  ∃ ext z, c = plugin_initialize ext ∧ ext ∈ exts
           ∧ ITelemetryPlugin.priority ext = Some z ∧ z < ChannelControllerPriority.
Proof.
  unfold initializeRemaining. rewrite list_elem_of_fmap. split.
  - intros (ext & -> & [Hlt Hin]%list_elem_of_filter).
    unfold number_lt in Hlt. destruct (ITelemetryPlugin.priority ext) as [z|] eqn:Hp; [|done].
    exists ext, z. split_and!; [done..|lia].
  - intros (ext & z & -> & Hin & Hp & Hlt). exists ext. split; [done|].
    apply list_elem_of_filter. split; [|done].
    unfold number_lt. rewrite Hp. lia.
Qed.

(** Either [initialize] stops before it has called anything, or it has run
    all its phases on the sorted extension list. *)
Lemma initialize_trace (config : option IConfiguration)
    (extensions : list (option IPlugin)) (σ : Runtime) :
  trace (initialize config extensions σ) = []
  ∨ ∃ sorted,
      _extensions (this (final (initialize config extensions σ))) = Some <$> sorted
      ∧ trace (initialize config extensions σ) =
          warnSamePriority sorted ∅ ++ setNextPlugins sorted
          ++ channelController_initialize sorted :: initializeRemaining sorted.
Proof.
  rewrite initialize_cases.
  destruct (_isInitialized (this σ)); [by left|].
  destruct config as [c|]; [|by left].
  destruct (IConfiguration.instrumentationKey c); [|by left].
  simpl. destruct (validate _) as [valid|]; [|by left].
  right. by eexists.
Qed.

Lemma initialize_success (config : option IConfiguration)
    (extensions : list (option IPlugin)) (σ σ' : Runtime) (cs : list Call) :
  initialize config extensions σ = (Normal tt, σ', cs) →
  _isInitialized (this σ') = true.
Proof.
  rewrite initialize_cases.
  destruct (_isInitialized (this σ)); [done|].
  destruct config as [c|]; [|done].
  destruct (IConfiguration.instrumentationKey c); [|done].
  simpl. destruct (validate _) as [valid|]; [|done].
  destruct (channelQueue _ _); [done|].
  by intros [= <- <-].
Qed.

End Initialize.

(** * Sorting by priority *)

Section Sorting.
Context `{!Collaborators}.

Lemma comesAfter_true (a b : IPlugin) :
  comesAfter a b = true ↔
  ITelemetryPlugin.processTelemetry a = true
  ∧ (ITelemetryPlugin.processTelemetry b = false
     ∨ ITelemetryPlugin.processTelemetry b = true
       ∧ ∃ za zb, ITelemetryPlugin.priority a = Some za
                  ∧ ITelemetryPlugin.priority b = Some zb ∧ zb < za).
Proof.
  unfold comesAfter, compareFn.
  destruct (ITelemetryPlugin.processTelemetry a), (ITelemetryPlugin.processTelemetry b),
    (ITelemetryPlugin.priority a) as [za|], (ITelemetryPlugin.priority b) as [zb|];
    simpl; split; try done;
    try (by intros (? & [?|(? & ? & ? & ? & ? & ?)]));
    try (by intros ?; split; [|left]).
  - intros Hlt. split; [done|]. right. split; [done|]. exists za, zb. split_and!; [done..|lia].
  - intros (_ & [[=]|(_ & za' & zb' & [= <-] & [= <-] & ?)]). lia.
Qed.

(** Between comparable entries, [a] may precede [b] exactly when [a] has no
    processing hook, or both have one and the priority of [a] is not the
    higher one. *)
Lemma mayPrecede_spec (a b : IPlugin) :
  comparable a → comparable b →
  mayPrecede a b ↔
  ITelemetryPlugin.processTelemetry a = false
  ∨ ITelemetryPlugin.processTelemetry b = true
    ∧ ∃ za zb, ITelemetryPlugin.priority a = Some za
               ∧ ITelemetryPlugin.priority b = Some zb ∧ za ≤ zb.
Proof.
  unfold mayPrecede, comparable. intros Ha Hb.
  destruct (comesAfter a b) eqn:Hafter.
  - apply comesAfter_true in Hafter as (Hpa & Hcase). split; [done|].
    intros [?|(Hpb & za & zb & Hza & Hzb & ?)]; [congruence|].
    destruct Hcase as [?|(_ & za' & zb' & ? & ? & ?)]; [congruence|]. simplify_eq. lia.
  - split; [|done]. intros _.
    destruct (ITelemetryPlugin.processTelemetry a) eqn:Hpa; [|by left]. right.
    destruct (ITelemetryPlugin.processTelemetry b) eqn:Hpb.
    + destruct (Ha eq_refl) as [za Hza], (Hb eq_refl) as [zb Hzb].
      split; [done|]. exists za, zb. split_and!; [done..|].
      destruct (decide (za ≤ zb)) as [|Hgt]; [done|].
      assert (comesAfter a b = true) as Habs; [|congruence].
      apply comesAfter_true. split; [done|]. right. split; [done|].
      exists za, zb. split_and!; [done..|lia].
    + assert (comesAfter a b = true) as Habs; [|congruence].
      apply comesAfter_true. split; [done|]. by left.
Qed.

Lemma mayPrecede_total (a b : IPlugin) : comesAfter a b = true → mayPrecede b a.
Proof.
  unfold mayPrecede. intros (Hpa & Hcase)%comesAfter_true.
  destruct (comesAfter b a) eqn:Hba; [|done].
  apply comesAfter_true in Hba as (Hpb & Hcase').
  destruct Hcase as [?|(_ & za & zb & ? & ? & ?)]; [congruence|].
  destruct Hcase' as [?|(_ & zb' & za' & ? & ? & ?)]; [congruence|]. simplify_eq. lia.
Qed.

Lemma mayPrecede_trans (a b c : IPlugin) :
  comparable a → comparable b → comparable c →
  mayPrecede a b → mayPrecede b c → mayPrecede a c.
Proof.
  intros Ha Hb Hc. rewrite !mayPrecede_spec by done.
  intros [?|(Hpb & za & zb & ? & ? & ?)] Hbc; [by left|].
  destruct Hbc as [?|(Hpc & zb' & zc & ? & ? & ?)]; [congruence|]. simplify_eq.
  right. split; [done|]. exists za, zc. split_and!; [done..|lia].
Qed.

Lemma insert_Permutation (x : IPlugin) (l : list IPlugin) : insert x l ≡ₚ x :: l.
Proof.
  induction l as [|y l IH]; simpl; [done|].
  destruct (comesAfter x y); [|done].
  by rewrite IH, Permutation_swap.
Qed.

Lemma sort_Permutation (l : list IPlugin) : sort l ≡ₚ l.
Proof.
  unfold sort. induction l as [|x l IH]; simpl; [done|].
  by rewrite insert_Permutation, IH.
Qed.

Lemma insert_StronglySorted (x : IPlugin) (l : list IPlugin) :
  comparable x → Forall comparable l →
  StronglySorted mayPrecede l → StronglySorted mayPrecede (insert x l).
Proof.
  intros Hx Hl Hsorted. induction Hsorted as [|y l Hsorted IH Hy]; simpl.
  - by repeat constructor.
  - apply Forall_cons in Hl as [Hcy Hl].
    destruct (comesAfter x y) eqn:Hafter.
    + constructor; [by apply IH|].
      rewrite insert_Permutation. constructor; [by apply mayPrecede_total|done].
    + constructor; [by constructor|]. constructor; [done|].
      rewrite Forall_forall in Hy, Hl |- *. intros z Hz.
      apply (mayPrecede_trans x y z); auto.
Qed.

Lemma sort_StronglySorted (l : list IPlugin) :
  Forall comparable l → StronglySorted mayPrecede (sort l).
Proof.
  unfold sort. induction 1 as [|x l Hx Hl IH]; simpl; [constructor|].
  apply insert_StronglySorted; [done| |done].
  fold (sort l). by rewrite sort_Permutation.
Qed.

End Sorting.

(** * Linking the pipeline *)

Section Linking.
Context `{!Collaborators}.

Lemma belowController_spec (e : IPlugin) :
  belowController e ↔
  ITelemetryPlugin.processTelemetry e = true
  ∧ ∃ z, ITelemetryPlugin.priority e = Some z ∧ z < ChannelControllerPriority.
Proof.
  unfold belowController, number_lt.
  destruct (ITelemetryPlugin.priority e) as [z|]; split.
  - intros [? ?]. split; [done|]. exists z. split; [done|lia].
  - intros [? (z' & [= <-] & ?)]. split; [done|lia].
  - by intros [? ?].
  - by intros [? (? & ? & ?)].
Qed.

Lemma channelController_not_below : ¬ belowController channelController.
Proof. rewrite belowController_spec. intros [_ (z & [= <-] & ?)]. lia. Qed.

Lemma channelController_comparable : comparable channelController.
Proof. intros _. by eexists. Qed.

Lemma successors_app (self : IPlugin) (cs1 cs2 : list Call) :
  successors self (cs1 ++ cs2) = successors self cs1 ++ successors self cs2.
Proof. apply omap_app. Qed.

Lemma successors_cons (self : IPlugin) (c : Call) (cs : list Call) :
  successors self (c :: cs) =
  match c with
  | setNextPlugin curr next =>
      if decide (curr = self) then next :: successors self cs else successors self cs
  | _ => successors self cs
  end.
Proof. unfold successors; simpl. destruct c; try done. by case_decide. Qed.

Lemma successors_none (self : IPlugin) (cs : list Call) :
  (∀ next, setNextPlugin self next ∉ cs) → successors self cs = [].
Proof.
  induction cs as [|c cs IH]; intros Hnone; [done|].
  rewrite successors_cons, IH by (intros next Hin; apply (Hnone next); by right).
  destruct c as [|curr next| | | | |]; try done.
  case_decide as Heq; [|done].
  subst curr. destruct (Hnone next). by left.
Qed.

Lemma NoDup_fmap_eq {A B : Type} (f : A → B) (l : list A) (x y : A) :
  NoDup (f <$> l) → x ∈ l → y ∈ l → f x = f y → x = y.
Proof.
  induction l as [|a l IH]; simpl; [by intros _ ?%elem_of_nil|].
  intros [Ha Hl]%NoDup_cons [->|Hx]%elem_of_cons [->|Hy]%elem_of_cons Heq; [done| | |by apply IH].
  - destruct Ha. rewrite Heq. by apply list_elem_of_fmap_2.
  - destruct Ha. rewrite <- Heq. by apply list_elem_of_fmap_2.
Qed.

(** In a sorted list that holds the channel controller, [initialize] only
    calls [setNextPlugin] on entries below the controller. *)
Lemma setNextPlugins_below (l : list IPlugin) (curr next : IPlugin) :
  StronglySorted mayPrecede l → Forall comparable l →
  (∃ c, c ∈ l ∧ ITelemetryPlugin.processTelemetry c = true
        ∧ ITelemetryPlugin.priority c = Some ChannelControllerPriority) →
  setNextPlugin curr next ∈ setNextPlugins l → belowController curr.
Proof.
  intros Hsorted. induction Hsorted as [|x l Hsorted IH Hx]; intros Hcomp Hc; simpl;
    [by intros ?%elem_of_nil|].
  apply Forall_cons in Hcomp as [Hcx Hcomp].
  destruct l as [|y l]; [by intros ?%elem_of_nil|].
  destruct Hc as (c & Hcin & Hcproc & Hcprio).
  destruct (ITelemetryPlugin.processTelemetry x) eqn:Hproc; simpl.
  - case_bool_decide as Hprio; [by intros ?%elem_of_nil|].
    assert (c ∈ y :: l) as Hcin'.
    { apply elem_of_cons in Hcin as [->|?]; [congruence|done]. }
    intros [[= <- <-]|Hin]%elem_of_cons; [|apply IH; eauto].
    rewrite Forall_forall in Hx, Hcomp. specialize (Hx c Hcin').
    apply mayPrecede_spec in Hx as [?|(_ & zx & zc & Hzx & Hzc & Hle)]; [congruence|auto..].
    apply belowController_spec. split; [done|]. exists zx. split; [done|].
    destruct (decide (zx = ChannelControllerPriority)); [congruence|].
    rewrite Hcprio in Hzc. simplify_eq. lia.
  - assert (c ∈ y :: l) as Hcin'.
    { apply elem_of_cons in Hcin as [->|?]; [congruence|done]. }
    intros Hin. apply IH; eauto.
Qed.

Lemma setNextPlugins_cons (curr next : IPlugin) (rest : list IPlugin) :
  setNextPlugins (curr :: next :: rest) =
  if negb (ITelemetryPlugin.processTelemetry curr) then setNextPlugins (next :: rest)
  else if bool_decide (ITelemetryPlugin.priority curr = Some ChannelControllerPriority)
  then []
  else setNextPlugin curr next :: setNextPlugins (next :: rest).
Proof. done. Qed.

(** The successor given to an entry below the controller is the entry that
    follows it in the list. *)
Lemma setNextPlugins_successor (before after : list IPlugin) (self next : IPlugin) :
  Forall (λ e, e ≠ self
               ∧ (ITelemetryPlugin.processTelemetry e = true →
                  ITelemetryPlugin.priority e ≠ Some ChannelControllerPriority)) before →
  ITelemetryPlugin.processTelemetry self = true →
  ITelemetryPlugin.priority self ≠ Some ChannelControllerPriority →
  self ∉ (next :: after) →
  successors self (setNextPlugins (before ++ self :: next :: after)) = [next].
Proof.
  intros Hbefore Hproc Hprio Hafter.
  induction Hbefore as [|e before [Hne He] _ IH].
  - rewrite app_nil_l, setNextPlugins_cons, Hproc. simpl negb. cbv iota.
    rewrite bool_decide_eq_false_2 by done.
    rewrite successors_cons, decide_True by done.
    rewrite successors_none; [done|].
    intros n (a & b & [= <- <-] & Hin & _)%setNextPlugins_calls. done.
  - change ((e :: before) ++ self :: next :: after)
      with (e :: (before ++ self :: next :: after)).
    destruct (before ++ self :: next :: after) as [|y rest] eqn:Hrest;
      [by destruct before|].
    rewrite setNextPlugins_cons.
    destruct (ITelemetryPlugin.processTelemetry e) eqn:Hpe; simpl negb; cbv iota; [|done].
    rewrite bool_decide_eq_false_2 by auto.
    by rewrite successors_cons, decide_False.
Qed.

End Linking.

Section Track.
Context `{!Collaborators}.

Lemma _notififyInvalidEvent_cases (telemetryItem : option ITelemetryItem) (σ : Runtime) :
  _notififyInvalidEvent telemetryItem σ =
  match _notificationManager (this σ) with
  | Some manager => (Normal tt, σ, invalidEventCalls telemetryItem manager)
  | None => (Throw TypeError, σ, [])
  end.
Proof.
  unfold _notififyInvalidEvent, bind, get, deref; simpl.
  by destruct (_notificationManager (this σ)).
Qed.

Lemma _validateTelmetryItem_cases (telemetryItem : ITelemetryItem) (σ : Runtime) :
  _validateTelmetryItem telemetryItem σ =
  match missingField telemetryItem with
  | None => (Normal tt, σ, [])
  | Some message =>
      match _notificationManager (this σ) with
      | Some manager =>
          (Throw (Error message), σ, invalidEventCalls (Some telemetryItem) manager)
      | None => (Throw TypeError, σ, [])
      end
  end.
Proof.
  unfold _validateTelmetryItem, missingField, bind.
  destruct (CoreUtils.isNullOrUndefined (ITelemetryItem.name telemetryItem)).
  { rewrite _notififyInvalidEvent_cases.
    destruct (_notificationManager (this σ)); simpl; by rewrite ?app_nil_r. }
  simpl. destruct (CoreUtils.isNullOrUndefined (ITelemetryItem.time telemetryItem)).
  { rewrite _notififyInvalidEvent_cases.
    destruct (_notificationManager (this σ)); simpl; by rewrite ?app_nil_r. }
  simpl. destruct (CoreUtils.isNullOrUndefined (ITelemetryItem.iKey telemetryItem)).
  { rewrite _notififyInvalidEvent_cases.
    destruct (_notificationManager (this σ)); simpl; by rewrite ?app_nil_r. }
  done.
Qed.

Lemma applyDefaults_cases (telemetryItem : ITelemetryItem) (σ : Runtime) :
  applyDefaults telemetryItem σ =
  match (if falsy_string (ITelemetryItem.iKey telemetryItem)
         then (λ c, set_iKey (IConfiguration.instrumentationKey c) telemetryItem)
                <$> config (this σ)
         else Some telemetryItem) with
  | None => (Throw TypeError, σ, [])
  | Some item1 =>
      let stamped := falsy_string (ITelemetryItem.time item1) in
      let item2 := if stamped then set_time (Some (toISOString (clock σ))) item1 else item1 in
      (Normal (if CoreUtils.isNullOrUndefined (ITelemetryItem.ver item2)
               then set_ver (Some "4.0") item2 else item2),
       if stamped then tick σ else σ, [])
  end.
Proof.
  unfold applyDefaults, bind, get, deref, Date_now, ret; simpl.
  destruct (falsy_string (ITelemetryItem.iKey telemetryItem)); simpl.
  - destruct (config (this σ)) as [c|]; simpl; [|done].
    by destruct (falsy_string (ITelemetryItem.time telemetryItem)).
  - by destruct (falsy_string (ITelemetryItem.time telemetryItem)).
Qed.

(** [dispatch] makes at most one call, on an entry with a processing hook. *)
Lemma dispatch_cases (exts : list (option IPlugin)) (item : ITelemetryItem) (σ : Runtime) :
  dispatch exts item σ = (Normal tt, σ, [])
  ∨ dispatch exts item σ = (Throw TypeError, σ, [])
  ∨ ∃ ext, Some ext ∈ exts ∧ ITelemetryPlugin.processTelemetry ext = true
           ∧ dispatch exts item σ
             = (Normal tt, processed ext item σ, [processTelemetry ext item]).
Proof.
  induction exts as [|[ext|] rest IH]; simpl.
  - by left.
  - destruct (ITelemetryPlugin.processTelemetry ext) eqn:Hproc.
    + right; right. exists ext. split_and!; [by left|done|done].
    + destruct IH as [IH|[IH|(e & ? & ? & IH)]]; [by left|by right; left|].
      right; right. exists e. split_and!; [by right|done|done].
  - by right; left.
Qed.

(** The entry that receives the item is the first one with a processing
    hook. *)
Lemma dispatch_first (before after : list IPlugin) (ext : IPlugin)
    (item : ITelemetryItem) (σ : Runtime) :
  Forall (λ e, ITelemetryPlugin.processTelemetry e = false) before →
  ITelemetryPlugin.processTelemetry ext = true →
  dispatch (Some <$> before ++ ext :: after) item σ
  = (Normal tt, processed ext item σ, [processTelemetry ext item]).
Proof.
  intros Hbefore Hext. induction Hbefore as [|e before He _ IH]; simpl.
  - by rewrite Hext.
  - by rewrite He.
Qed.

(** Every call that [track] makes is a discard notification or the one
    dispatch of [dispatch]. *)
Lemma track_calls (telemetryItem : option ITelemetryItem) (σ : Runtime) (c : Call) :
  c ∈ trace (track telemetryItem σ) →
  (∃ events, c = notificationManager_eventsDiscarded events InvalidEvent)
  ∨ (∃ listener events,
        c = listener_eventsDiscarded listener events InvalidEvent
        ∧ INotificationListener.eventsDiscarded listener = true)
  ∨ (∃ ext item, c = processTelemetry ext item
                 ∧ Some ext ∈ _extensions (this σ)
                 ∧ ITelemetryPlugin.processTelemetry ext = true).
Proof.
  assert (Hnotify : ∀ ti manager, c ∈ invalidEventCalls ti manager →
    (∃ events, c = notificationManager_eventsDiscarded events InvalidEvent)
    ∨ (∃ listener events,
          c = listener_eventsDiscarded listener events InvalidEvent
          ∧ INotificationListener.eventsDiscarded listener = true)
    ∨ (∃ ext item, c = processTelemetry ext item
                   ∧ Some ext ∈ _extensions (this σ)
                   ∧ ITelemetryPlugin.processTelemetry ext = true)).
  { intros ti manager [->|Hin]%elem_of_cons; [by left; eexists|].
    right; left. unfold NotificationManager.eventsDiscarded in Hin.
    apply list_elem_of_fmap in Hin as (l & -> & [Hl _]%list_elem_of_filter). eauto. }
  destruct telemetryItem as [telemetryItem|]; unfold track, bind.
  - rewrite applyDefaults_cases.
    destruct (if falsy_string _ then _ else _) as [item1|]; simpl; [|by intros ?%elem_of_nil].
    set (item := if CoreUtils.isNullOrUndefined _ then _ else _).
    set (σ1 := if falsy_string (ITelemetryItem.time item1) then tick σ else σ).
    assert (this σ1 = this σ) as Hthis by (subst σ1; by destruct (falsy_string _)).
    rewrite _validateTelmetryItem_cases, Hthis.
    destruct (missingField _).
    { destruct (_notificationManager (this σ)); simpl; [apply Hnotify|by intros ?%elem_of_nil]. }
    unfold get; simpl. rewrite Hthis.
    destruct (dispatch_cases (_extensions (this σ)) item σ1)
      as [->|[->|(ext & Hin & Hproc & ->)]]; simpl; [by intros ?%elem_of_nil..|].
    intros ->%list_elem_of_singleton. right; right. eauto.
  - rewrite _notififyInvalidEvent_cases.
    destruct (_notificationManager (this σ)); simpl; [|by intros ?%elem_of_nil].
    rewrite app_nil_r. apply Hnotify.
Qed.

Lemma applyDefaults_withDefaults (c : IConfiguration)
    (telemetryItem : ITelemetryItem) (σ : Runtime) :
  config (this σ) = Some c →
  applyDefaults telemetryItem σ
  = (Normal (withDefaults c (toISOString (clock σ)) telemetryItem),
     if falsy_string (ITelemetryItem.time telemetryItem) then tick σ else σ, []).
Proof.
  intros Hc. rewrite applyDefaults_cases, Hc. unfold withDefaults.
  by destruct (falsy_string (ITelemetryItem.iKey telemetryItem)).
Qed.

Lemma withDefaults_name (c : IConfiguration) (now : string) (telemetryItem : ITelemetryItem) :
  ITelemetryItem.name (withDefaults c now telemetryItem) = ITelemetryItem.name telemetryItem.
Proof. unfold withDefaults. by repeat case_match. Qed.

Lemma withDefaults_time (c : IConfiguration) (now : string) (telemetryItem : ITelemetryItem) :
  is_Some (ITelemetryItem.time (withDefaults c now telemetryItem)).
Proof.
  unfold withDefaults.
  destruct (falsy_string (ITelemetryItem.iKey telemetryItem)); simpl;
    destruct (ITelemetryItem.time telemetryItem) eqn:Ht; simpl;
    repeat case_match; simpl; rewrite ?Ht; by eauto.
Qed.

Lemma withDefaults_iKey (c : IConfiguration) (now : string) (telemetryItem : ITelemetryItem) :
  is_Some (IConfiguration.instrumentationKey c) →
  is_Some (ITelemetryItem.iKey (withDefaults c now telemetryItem)).
Proof.
  intros [k Hk]. unfold withDefaults.
  destruct (ITelemetryItem.iKey telemetryItem) eqn:Hi; simpl;
    repeat case_match; simpl; rewrite ?Hi, ?Hk; by eauto.
Qed.

(** With an instrumentation key in the configuration, an item passes the
    validation exactly when it has a name. *)
Lemma missingField_withDefaults (c : IConfiguration) (now : string)
    (telemetryItem : ITelemetryItem) :
  is_Some (IConfiguration.instrumentationKey c) →
  missingField (withDefaults c now telemetryItem) =
  match ITelemetryItem.name telemetryItem with
  | Some _ => None
  | None => Some "telemetry name required"
  end.
Proof.
  intros Hk. unfold missingField. rewrite withDefaults_name.
  destruct (ITelemetryItem.name telemetryItem); simpl; [|done].
  destruct (withDefaults_time c now telemetryItem) as [? ->].
  by destruct (withDefaults_iKey c now telemetryItem Hk) as [? ->].
Qed.

(** [track] on an item, where the instance has a configuration. *)
Lemma track_cases (c : IConfiguration) (telemetryItem : ITelemetryItem) (σ : Runtime) :
  config (this σ) = Some c →
  let item := withDefaults c (toISOString (clock σ)) telemetryItem in
  let σ1 := if falsy_string (ITelemetryItem.time telemetryItem) then tick σ else σ in
  track (Some telemetryItem) σ =
  match missingField item with
  | Some message =>
      match _notificationManager (this σ) with
      | Some manager => (Throw (Error message), σ1, invalidEventCalls (Some item) manager)
      | None => (Throw TypeError, σ1, [])
      end
  | None => dispatch (_extensions (this σ)) item σ1
  end.
Proof.
  intros Hc item σ1. unfold track, bind.
  rewrite (applyDefaults_withDefaults c) by done. fold item σ1.
  assert (this σ1 = this σ) as Hthis by (subst σ1; by destruct (falsy_string _)).
  rewrite _validateTelmetryItem_cases, Hthis.
  destruct (missingField item).
  { by destruct (_notificationManager (this σ)). }
  unfold get; simpl. rewrite Hthis. by destruct (dispatch _ _ _) as [[? ?] ?].
Qed.

(** Whatever [track] is given, the only processing hook it can call is the
    one of the first entry that has one. *)
Lemma track_dispatches_first_only (c : IConfiguration) (before after : list IPlugin)
    (first : IPlugin) (σ : Runtime) (telemetryItem : option ITelemetryItem)
    (ext : IPlugin) (item : ITelemetryItem) :
  config (this σ) = Some c →
  _extensions (this σ) = Some <$> before ++ first :: after →
  Forall (λ e, ITelemetryPlugin.processTelemetry e = false) before →
  ITelemetryPlugin.processTelemetry first = true →
  processTelemetry ext item ∈ trace (track telemetryItem σ) → ext = first.
Proof.
  intros Hc Hexts Hbefore Hfirst.
  assert (∀ ti manager, processTelemetry ext item ∉ invalidEventCalls ti manager) as Hnotify.
  { intros ti manager [[=]|Hin]%elem_of_cons.
    unfold NotificationManager.eventsDiscarded in Hin.
    by apply list_elem_of_fmap in Hin as (l & [=] & _). }
  destruct telemetryItem as [telemetryItem|].
  - rewrite (track_cases c) by done.
    destruct (missingField _).
    + destruct (_notificationManager (this σ)); unfold trace; cbn [snd];
        [by intros ?%Hnotify|by intros ?%elem_of_nil].
    + rewrite Hexts, dispatch_first by done. unfold trace; cbn [snd].
      by intros [= -> _]%list_elem_of_singleton.
  - unfold track, bind. rewrite _notififyInvalidEvent_cases.
    destruct (_notificationManager (this σ)) as [manager|]; unfold trace, throw; cbn [snd];
      [rewrite app_nil_r; by intros ?%Hnotify|by intros ?%elem_of_nil].
Qed.

End Track.

(** * The pipeline built by [initialize] *)

Section Pipeline.
Context `{!Collaborators}.

Lemma StronglySorted_middle (before after : list IPlugin) (e : IPlugin) :
  StronglySorted mayPrecede (before ++ e :: after) →
  Forall (λ x, mayPrecede x e) before ∧ Forall (mayPrecede e) after.
Proof.
  intros Hsorted. split.
  - rewrite Forall_forall. intros x Hx.
    apply (StronglySorted_app_1_elem_of _ _ _ _ _ Hsorted); [done|by left].
  - apply StronglySorted_app_1_r in Hsorted. by inversion Hsorted.
Qed.

(** Where an entry below the controller stands in the sorted list: once,
    before the controller, hence followed by another entry. *)
Lemma sorted_position (plugins : list IPlugin) (self : IPlugin) :
  Forall comparable plugins →
  NoDup (ITelemetryPlugin.priority
           <$> filter (λ e, ITelemetryPlugin.processTelemetry e = true) plugins) →
  self ∈ plugins → belowController self →
  ∃ before next after,
    sort (plugins ++ [channelController]) = before ++ self :: next :: after
    ∧ (self ∉ before) ∧ (self ∉ next :: after).
Proof.
  intros Hcomp Hdistinct Hin Hbelow.
  pose proof (sort_Permutation (plugins ++ [channelController])) as Hperm.
  assert (StronglySorted mayPrecede (sort (plugins ++ [channelController]))) as Hsorted.
  { apply sort_StronglySorted, Forall_app. split; [done|].
    constructor; [apply channelController_comparable|constructor]. }
  assert (Forall comparable (sort (plugins ++ [channelController]))) as Hcomp'.
  { rewrite Hperm. apply Forall_app. split; [done|].
    constructor; [apply channelController_comparable|constructor]. }
  assert (NoDup (filter belowController (sort (plugins ++ [channelController])))) as Hnodup.
  { rewrite Hperm, filter_app, (filter_cons_False _ channelController)
      by apply channelController_not_below.
    rewrite filter_nil, app_nil_r.
    rewrite <- (list_filter_filter_l belowController
                  (λ e, ITelemetryPlugin.processTelemetry e = true)) by (by intros ? [? ?]).
    apply NoDup_filter. eapply NoDup_fmap_1, Hdistinct. }
  assert (self ∈ sort (plugins ++ [channelController])) as Hself.
  { rewrite Hperm, elem_of_app. by left. }
  apply list_elem_of_split in Hself as (before & rest & Hsplit).
  rewrite Hsplit in Hnodup, Hsorted, Hperm.
  rewrite filter_app, filter_cons_True in Hnodup by done.
  apply NoDup_app in Hnodup as (_ & Hbefore & [Hrest _]%NoDup_cons).
  assert (self ∉ before) as Hnb.
  { intros Hb. apply (Hbefore self); [by apply list_elem_of_filter|by left]. }
  assert (self ∉ rest) as Hnr.
  { intros Hr. apply Hrest. by apply list_elem_of_filter. }
  apply StronglySorted_middle in Hsorted as [Hprecede _].
  assert (channelController ∈ before ++ self :: rest) as Hcc.
  { rewrite Hperm, elem_of_app. right. by left. }
  apply belowController_spec in Hbelow as (Hproc & z & Hz & Hlt).
  assert (Forall comparable (before ++ self :: rest)) as Hcomp''.
  { rewrite <- Hsplit. done. }
  apply Forall_app in Hcomp'' as [Hcb [Hcs Hcr]%Forall_cons].
  apply elem_of_app in Hcc as [Hcc|[Hcc|Hcc]%elem_of_cons].
  - rewrite Forall_forall in Hprecede, Hcb.
    specialize (Hprecede _ Hcc).
    apply mayPrecede_spec in Hprecede as [[=]|(_ & zc & zs & [= <-] & ? & ?)];
      [|apply channelController_comparable|done].
    simplify_eq. lia.
  - rewrite <- Hcc in Hz. simpl in Hz. simplify_eq. lia.
  - destruct rest as [|next after]; [by apply elem_of_nil in Hcc|].
    exists before, next, after. by rewrite Hsplit.
Qed.

Lemma validate_fmap_Some (l valid : list IPlugin) :
  validate (Some <$> l) = Some valid → valid = l.
Proof.
  revert valid. induction l as [|e l IH]; intros valid; [by intros [= <-]|].
  rewrite fmap_cons. cbn [validate].
  destruct (ITelemetryPlugin.initialize e); [|done].
  destruct (validate (Some <$> l)) as [v|]; [|done].
  intros [= <-]. f_equal. by apply IH.
Qed.

(** What a successful [initialize] on a fresh instance leaves behind. *)
Lemma initialize_fresh (σ σ' : Runtime) (c : IConfiguration)
    (extensions : list (option IPlugin)) (plugins : list IPlugin) (cs : list Call) :
  _extensions (this σ) = [] →
  extensions ++ default [] (IConfiguration.extensions c) = Some <$> plugins →
  initialize (Some c) extensions σ = (Normal tt, σ', cs) →
  let sorted := sort (plugins ++ [channelController]) in
  config (this σ') = Some (adoptConfig c)
  ∧ is_Some (IConfiguration.instrumentationKey c)
  ∧ _extensions (this σ') = Some <$> sorted
  ∧ cs = warnSamePriority sorted ∅ ++ setNextPlugins sorted
         ++ channelController_initialize sorted :: initializeRemaining sorted.
Proof.
  intros Hfresh Hmerged. rewrite initialize_cases.
  destruct (_isInitialized (this σ)); [done|].
  destruct (IConfiguration.instrumentationKey c) as [k|] eqn:Hk; [|done].
  simpl. rewrite Hfresh, app_nil_l, Hmerged.
  destruct (validate (Some <$> plugins)) as [valid|] eqn:Hvalid; [|done].
  apply validate_fmap_Some in Hvalid as ->.
  destruct (channelQueue _ _); [done|].
  intros [= <- <-]. simpl. split_and!; [done|by eexists|done|done].
Qed.

(** C1.  Take a fresh instance and extensions that [initialize] accepts,
    in which the entries with a processing hook have numeric, pairwise
    distinct priorities.  After [initialize] has returned:
    - every such entry below the channel controller has had [setNextPlugin]
      called exactly once, with the entry of the next-higher priority of the
      pipeline (the given entries and the channel controller);
    - no other entry has had [setNextPlugin] called: linking stops where the
      channel controller stands;
    - [track] hands an item that has a name to the processing hook of the
      entry with the lowest priority among those below the channel
      controller and makes no other call, and whatever [track] is given, it
      calls the processing hook of no other entry. *)
Theorem pipeline_follows_priority (σ σ' : Runtime) (c : IConfiguration)
    (extensions : list (option IPlugin)) (plugins : list IPlugin) (cs : list Call)
    (Hfresh : _extensions (this σ) = [])
    (Hmerged : extensions ++ default [] (IConfiguration.extensions c) = Some <$> plugins)
    (Hcomparable : Forall comparable plugins)
    (Hdistinct :
       NoDup (ITelemetryPlugin.priority
                <$> filter (λ e, ITelemetryPlugin.processTelemetry e = true) plugins))
    (Hinit : initialize (Some c) extensions σ = (Normal tt, σ', cs)) :
  (∀ self, self ∈ plugins → belowController self →
     ∃ next, successors self cs = [next]
             ∧ nextHigher (plugins ++ [channelController]) self next)
  ∧ (∀ self, self ∈ plugins → ¬ belowController self → successors self cs = [])
  ∧ (∀ first, first ∈ plugins → belowController first →
       (∀ e zf ze, e ∈ plugins → ITelemetryPlugin.processTelemetry e = true →
                   ITelemetryPlugin.priority first = Some zf →
                   ITelemetryPlugin.priority e = Some ze → zf ≤ ze) →
       (∀ telemetryItem, is_Some (ITelemetryItem.name telemetryItem) →
          let item := withDefaults (adoptConfig c) (toISOString (clock σ')) telemetryItem in
          let σ1 := if falsy_string (ITelemetryItem.time telemetryItem) then tick σ' else σ' in
          track (Some telemetryItem) σ'
          = (Normal tt, processed first item σ1, [processTelemetry first item]))
       ∧ (∀ telemetryItem ext item,
            processTelemetry ext item ∈ trace (track telemetryItem σ') → ext = first)).
Proof.
  destruct (initialize_fresh _ _ _ _ _ _ Hfresh Hmerged Hinit)
    as (Hconfig & Hkey & Hexts & ->).
  pose proof (sort_Permutation (plugins ++ [channelController])) as Hperm.
  assert (Forall comparable (plugins ++ [channelController])) as Hcomp.
  { apply Forall_app. split; [done|].
    constructor; [apply channelController_comparable|constructor]. }
  pose proof (sort_StronglySorted _ Hcomp) as Hsorted.
  assert (∀ self, successors self
            (warnSamePriority (sort (plugins ++ [channelController])) ∅
             ++ setNextPlugins (sort (plugins ++ [channelController]))
             ++ channelController_initialize (sort (plugins ++ [channelController]))
                :: initializeRemaining (sort (plugins ++ [channelController])))
          = successors self (setNextPlugins (sort (plugins ++ [channelController]))))
    as Hsucc.
  { intros self. rewrite !successors_app.
    rewrite (successors_none self (warnSamePriority _ _))
      by (by intros ? (? & [=])%warnSamePriority_calls).
    rewrite successors_cons.
    rewrite (successors_none self (initializeRemaining _))
      by (by intros ? (? & ? & [=] & _)%initializeRemaining_calls).
    by rewrite app_nil_r. }
  assert (∀ e, e ∈ plugins → ITelemetryPlugin.processTelemetry e = true →
            ITelemetryPlugin.priority e ≠ Some ChannelControllerPriority →
            ∀ e', e' ∈ plugins ++ [channelController] →
                  ITelemetryPlugin.processTelemetry e' = true →
                  ITelemetryPlugin.priority e' = ITelemetryPlugin.priority e → e' = e)
    as Hunique.
  { intros e He Hpe Hne e' [He'| ->%list_elem_of_singleton]%elem_of_app Hpe' Heq;
      [|simpl in Heq; congruence].
    apply (NoDup_fmap_eq _ _ _ _ Hdistinct); [by apply list_elem_of_filter..|done]. }
  split_and!.
  - intros self Hin Hbelow.
    destruct (sorted_position plugins self Hcomparable Hdistinct Hin Hbelow)
      as (before & next & after & Hsplit & Hnb & Hna).
    rewrite Hsplit in Hsorted, Hperm. rewrite Hsucc, Hsplit.
    pose proof Hbelow as (Hproc & z & Hz & Hlt)%belowController_spec.
    assert (Forall comparable (before ++ self :: next :: after)) as Hcomp'
      by (by rewrite Hperm).
    apply Forall_app in Hcomp' as [Hcb Hcomp'].
    apply Forall_cons in Hcomp' as [Hcs Hcomp'].
    apply Forall_cons in Hcomp' as [Hcn Hca].
    pose proof (StronglySorted_middle _ _ _ Hsorted) as [Hprec Hfollow].
    apply Forall_cons in Hfollow as [Hsn _].
    assert (Forall (mayPrecede next) after) as Hafter.
    { rewrite (cons_middle self), app_assoc in Hsorted.
      by apply StronglySorted_middle in Hsorted as [_ ?]. }
    apply mayPrecede_spec in Hsn as [?|(Hpn & zs & zn & Hzs & Hzn & Hle)];
      [congruence| |done..].
    rewrite Hz in Hzs. injection Hzs as <-.
    exists next. split.
    + apply setNextPlugins_successor; [|done|rewrite Hz; intros [=]; lia|done].
      rewrite Forall_forall in Hprec, Hcb |- *. intros e He. split; [by intros ->|].
      intros Hpe Hce. specialize (Hprec e He).
      apply mayPrecede_spec in Hprec as [?|(_ & ze & zs & Hze & Hzs & ?)];
        [congruence| |by apply Hcb|done].
      simplify_eq. lia.
    + assert (next ∈ plugins ++ [channelController]) as Hnext.
      { rewrite <- Hperm, elem_of_app. right. right. by left. }
      split_and!; [done..|]. exists z, zn. split_and!; [done..| |].
      * destruct (decide (z = zn)) as [<-|]; [|lia].
        destruct Hna. rewrite (Hunique self Hin Hproc) with (e' := next);
          [by left|rewrite Hz; intros [=]; lia|done|done|congruence].
      * intros e ze He Hpe Hze [Hlo Hhi]. rewrite <- Hperm in He.
        rewrite Forall_forall in Hprec, Hafter, Hcb, Hca.
        apply elem_of_app in He as [He|[->|[->|He]%elem_of_cons]%elem_of_cons].
        -- specialize (Hprec e He).
           apply mayPrecede_spec in Hprec as [?|(_ & ze' & zs & ? & ? & ?)];
             [congruence| |by apply Hcb|done].
           simplify_eq. lia.
        -- simplify_eq. lia.
        -- simplify_eq. lia.
        -- specialize (Hafter e He).
           apply mayPrecede_spec in Hafter as [?|(_ & zn' & ze' & ? & ? & ?)];
             [congruence| |done|by apply Hca].
           simplify_eq. lia.
  - intros self Hin Hnot. rewrite Hsucc. apply successors_none. intros next Hcall.
    apply Hnot. eapply setNextPlugins_below; [done| |..|done].
    + by rewrite Hperm.
    + exists channelController. split_and!; [|done..].
      rewrite Hperm, elem_of_app. right. by left.
  - intros first Hin Hbelow Hlowest.
    destruct (sorted_position plugins first Hcomparable Hdistinct Hin Hbelow)
      as (before & next & after & Hsplit & Hnb & Hna).
    rewrite Hsplit in Hsorted, Hperm.
    pose proof Hbelow as (Hproc & z & Hz & Hlt)%belowController_spec.
    assert (Forall comparable (before ++ first :: next :: after)) as Hcomp'
      by (by rewrite Hperm).
    apply Forall_app in Hcomp' as [Hcb Hcomp'].
    apply Forall_cons in Hcomp' as [Hcs _].
    pose proof (StronglySorted_middle _ _ _ Hsorted) as [Hprec _].
    assert (Forall (λ e, ITelemetryPlugin.processTelemetry e = false) before) as Hskip.
    { rewrite Forall_forall in Hprec, Hcb |- *. intros e He.
      destruct (ITelemetryPlugin.processTelemetry e) eqn:Hpe; [|done].
      specialize (Hprec e He).
      apply mayPrecede_spec in Hprec as [?|(_ & ze & zf & Hze & Hzf & ?)];
        [congruence| |by apply Hcb|done].
      rewrite Hz in Hzf. injection Hzf as <-.
      assert (e ∈ plugins ++ [channelController]) as He'.
      { rewrite <- Hperm, elem_of_app. by left. }
      assert (ze = z) as ->.
      { apply elem_of_app in He' as [He'| ->%list_elem_of_singleton].
        - pose proof (Hlowest e z ze He' Hpe Hz Hze). lia.
        - simpl in Hze. simplify_eq. lia. }
      destruct Hnb. rewrite <- (Hunique first Hin Hproc) with (e' := e);
        [done|rewrite Hz; intros [=]; lia|done|done|congruence]. }
    rewrite Hsplit in Hexts. split.
    + intros telemetryItem Hname item σ1.
      rewrite (track_cases (adoptConfig c)) by done.
      fold item σ1. unfold item at 1.
      rewrite missingField_withDefaults by done.
      destruct Hname as [n ->].
      rewrite Hexts. apply dispatch_first; done.
    + intros telemetryItem ext item.
      by apply (track_dispatches_first_only (adoptConfig c) before (next :: after)).
Qed.

End Pipeline.

(** * What [initialize] guarantees *)

Section InitializeOnce.
Context `{!Collaborators}.

(** C2.  On an instance on which [initialize] has completed successfully,
    every further call of [initialize], whatever its arguments, throws
    "Core should not be initialized more than once", makes no call on any
    collaborator and leaves the whole state (extension list, configuration,
    notification manager, logger, channel controller) as it was. *)
Theorem initialize_twice_fails (σ0 σ : Runtime) (config0 : option IConfiguration)
    (extensions0 : list (option IPlugin)) (calls0 : list Call)
    (Hfirst : initialize config0 extensions0 σ0 = (Normal tt, σ, calls0))
    (config : option IConfiguration) (extensions : list (option IPlugin)) :
  initialize config extensions σ
  = (Throw (Error "Core should not be initialized more than once"), σ, []).
Proof.
  apply initialize_success in Hfirst.
  by rewrite initialize_cases, Hfirst.
Qed.

(** C9, as the code has it.  On an instance that is not initialized yet,
    [initialize] throws "Please provide instrumentation key", and changes
    nothing, when the configuration is null or its instrumentation key is
    null or undefined; it does not throw that error for any configuration
    whose instrumentation key is a string, the empty string included. *)
Theorem initialize_requires_instrumentationKey (σ : Runtime)
    (config : option IConfiguration) (extensions : list (option IPlugin))
    (Hnew : _isInitialized (this σ) = false) :
  (config ≫= IConfiguration.instrumentationKey = None →
   initialize config extensions σ
   = (Throw (Error "Please provide instrumentation key"), σ, []))
  ∧ (is_Some (config ≫= IConfiguration.instrumentationKey) →
     outcome (initialize config extensions σ)
     ≠ Throw (Error "Please provide instrumentation key")).
Proof.
  rewrite initialize_cases, Hnew. split.
  - destruct config as [c|]; simpl; [|done]. by intros ->.
  - destruct config as [c|]; simpl; [|by intros [? [=]]].
    intros [k ->]. simpl. destruct (validate _); [|done].
    by destruct (channelQueue _ _).
Qed.

(** C3.  When a call of [initialize] has initialized the channel controller
    and the controller then exposes no channel group, the call throws
    "No channels available", [getTransmissionControls] returns the empty
    list, the instance is not marked initialized, and no later call of
    [initialize] is rejected as a second initialization. *)
Theorem initialize_without_channels (σ : Runtime)
    (config : option IConfiguration) (extensions : list (option IPlugin))
    (Hcontroller :
       ∃ exts, channelController_initialize exts ∈ trace (initialize config extensions σ))
    (Hnone :
       ChannelController.ChannelControls
         (_channelController (this (final (initialize config extensions σ)))) = []) :
  outcome (initialize config extensions σ) = Throw (Error "No channels available")
  ∧ outcome (getTransmissionControls (final (initialize config extensions σ))) = Normal []
  ∧ _isInitialized (this (final (initialize config extensions σ))) = false
  ∧ ∀ config' extensions',
      outcome (initialize config' extensions' (final (initialize config extensions σ)))
      ≠ Throw (Error "Core should not be initialized more than once").
Proof.
  destruct Hcontroller as [exts Hcontroller].
  assert (outcome (initialize config extensions σ) = Throw (Error "No channels available")
          ∧ _isInitialized (this (final (initialize config extensions σ))) = false)
    as [Hout Hflag].
  { revert Hcontroller Hnone. rewrite initialize_cases.
    destruct (_isInitialized (this σ)); [by intros ?%elem_of_nil|].
    destruct config as [c|]; [|by intros ?%elem_of_nil].
    destruct (IConfiguration.instrumentationKey c); [|by intros ?%elem_of_nil].
    simpl. destruct (validate _) as [valid|]; [|by intros ?%elem_of_nil].
    unfold final, outcome; simpl. by intros _ ->. }
  split_and!; [done| |done|].
  - unfold getTransmissionControls, bind, get, ret, outcome; simpl. by rewrite Hnone.
  - intros config' extensions'. rewrite initialize_cases, Hflag.
    destruct config' as [c'|]; [|done].
    destruct (IConfiguration.instrumentationKey c'); [|done].
    simpl. destruct (validate _); [|done]. by destruct (channelQueue _ _).
Qed.

(** C10.  [initialize] calls the [initialize] hook of an extension only when
    the priority of that extension is a number below the priority of the
    channel controller; an extension without a priority gets no such call. *)
Theorem initialize_skips_plugins_without_priority (σ : Runtime)
    (config : option IConfiguration) (extensions : list (option IPlugin)) :
  (∀ ext, plugin_initialize ext ∈ trace (initialize config extensions σ) →
          ∃ z, ITelemetryPlugin.priority ext = Some z ∧ z < ChannelControllerPriority)
  ∧ (∀ ext, ITelemetryPlugin.priority ext = None →
            plugin_initialize ext ∉ trace (initialize config extensions σ)).
Proof.
  assert (∀ ext, plugin_initialize ext ∈ trace (initialize config extensions σ) →
                 ∃ z, ITelemetryPlugin.priority ext = Some z ∧ z < ChannelControllerPriority)
    as Hprio.
  { intros ext. destruct (initialize_trace config extensions σ) as [->|(sorted & _ & ->)];
      [by intros ?%elem_of_nil|].
    rewrite !elem_of_app, elem_of_cons.
    intros [(? & [=])%warnSamePriority_calls
           |[(? & ? & [=] & _)%setNextPlugins_calls|[[=]|Hin]]].
    apply initializeRemaining_calls in Hin as (e & z & [= <-] & _ & ? & ?). eauto. }
  split; [done|].
  intros ext Hnone Hin. destruct (Hprio ext Hin) as (z & Hz & _). congruence.
Qed.

(** C6.  An extension without a processing hook never has its
    [setNextPlugin] hook called by [initialize], wherever it stands in the
    lists given to [initialize], and no call of [track], in any state,
    invokes a processing hook on it. *)
Theorem init_only_plugin_not_linked_not_dispatched (ext : IPlugin)
    (Hinit_only : ITelemetryPlugin.processTelemetry ext = false) :
  (∀ σ config extensions next,
     setNextPlugin ext next ∉ trace (initialize config extensions σ))
  ∧ (∀ σ telemetryItem item,
       processTelemetry ext item ∉ trace (track telemetryItem σ)).
Proof.
  split.
  - intros σ config extensions next.
    destruct (initialize_trace config extensions σ) as [->|(sorted & _ & ->)];
      [by intros ?%elem_of_nil|].
    rewrite !elem_of_app, elem_of_cons.
    intros [(? & [=])%warnSamePriority_calls
           |[(? & ? & [= <- <-] & _ & ? & _)%setNextPlugins_calls
            |[[=]|(? & ? & [=] & _)%initializeRemaining_calls]]].
    congruence.
  - intros σ telemetryItem item
      [(? & [=])|[(? & ? & [=] & _)|(? & ? & [= <- <-] & _ & ?)]]%track_calls.
    congruence.
Qed.

End InitializeOnce.

(** * How the state evolves *)

Section States.
Context `{!Collaborators}.

Lemma logsAppended_refl (c : t) : logsAppended c c.
Proof.
  unfold logsAppended. split_and!; [done..|].
  destruct (logger c); [|done]. exists []. by rewrite app_nil_r.
Qed.

Lemma logsAppended_trans (c1 c2 c3 : t) :
  logsAppended c1 c2 → logsAppended c2 c3 → logsAppended c1 c3.
Proof.
  unfold logsAppended. intros (-> & -> & -> & -> & -> & H12) (-> & -> & -> & -> & -> & H23).
  split_and!; [done..|].
  destruct (logger c1), (logger c2), (logger c3); try done.
  destruct H12 as [e1 H12], H23 as [e2 H23]. exists (e1 ++ e2).
  by rewrite H23, H12, app_assoc.
Qed.

Lemma logsAppended_appendLogs (messages : list _InternalLogMessage) (c : t) :
  logsAppended c (appendLogs messages c).
Proof.
  unfold logsAppended, appendLogs.
  destruct (logger c) as [l|] eqn:Hl; simpl; rewrite ?Hl; [|done].
  split_and!; [done..|]. by exists messages.
Qed.

(** [track] leaves the instance as it was, or as the processing hook of one
    entry has left it. *)
Lemma track_final (telemetryItem : option ITelemetryItem) (σ : Runtime) :
  this (final (track telemetryItem σ)) = this σ
  ∨ ∃ ext item, this (final (track telemetryItem σ)) = appendLogs (logged ext item) (this σ).
Proof.
  destruct telemetryItem as [telemetryItem|]; unfold track, bind.
  - rewrite applyDefaults_cases.
    destruct (if falsy_string _ then _ else _) as [item1|]; simpl; [|by left].
    set (item := if CoreUtils.isNullOrUndefined _ then _ else _).
    set (σ1 := if falsy_string (ITelemetryItem.time item1) then tick σ else σ).
    assert (this σ1 = this σ) as Hthis by (subst σ1; by destruct (falsy_string _)).
    rewrite _validateTelmetryItem_cases, Hthis.
    destruct (missingField _).
    { destruct (_notificationManager (this σ)); simpl; by left. }
    unfold get; simpl. rewrite Hthis.
    destruct (dispatch_cases (_extensions (this σ)) item σ1)
      as [->|[->|(ext & _ & _ & ->)]]; simpl; [by left..|].
    right. exists ext, item. by rewrite Hthis.
  - rewrite _notififyInvalidEvent_cases.
    destruct (_notificationManager (this σ)); simpl; by left.
Qed.

Lemma track_logsAppended (telemetryItem : option ITelemetryItem) (σ : Runtime) :
  logsAppended (this σ) (this (final (track telemetryItem σ))).
Proof.
  destruct (track_final telemetryItem σ) as [->|(ext & item & ->)].
  - apply logsAppended_refl.
  - apply logsAppended_appendLogs.
Qed.

(** What [forEach] does with one message: it builds the item and tracks it. *)
Lemma trackLogMessage_cases (logMessage : _InternalLogMessage) (σ : Runtime) :
  trackLogMessage logMessage σ =
  match config (this σ) with
  | Some c =>
      track (Some (internalLogItem logMessage (IConfiguration.instrumentationKey c)
                     (toISOString (clock σ)))) (tick σ)
  | None => (Throw TypeError, σ, [])
  end.
Proof.
  unfold trackLogMessage, bind, get, deref, Date_now; cbn -[track].
  destruct (config (this σ)) as [c|]; cbn -[track]; [|done].
  unfold tick. by destruct (track _ _) as [[? ?] ?].
Qed.

Lemma trackLogMessage_logsAppended (logMessage : _InternalLogMessage) (σ : Runtime) :
  logsAppended (this σ) (this (final (trackLogMessage logMessage σ))).
Proof.
  rewrite trackLogMessage_cases.
  destruct (config (this σ)) as [c|]; [|apply logsAppended_refl].
  apply (track_logsAppended _ (tick σ)).
Qed.

(** [forEach] over the queue visits the messages that were in the queue
    when it started, whatever is appended meanwhile. *)
Lemma forEach_queue_trackAll (visited rest : list _InternalLogMessage) (σ : Runtime)
    (l : DiagnosticLogger) (extra : list _InternalLogMessage) :
  logger (this σ) = Some l →
  DiagnosticLogger.queue l = visited ++ rest ++ extra →
  forEach_queue (length rest) (length visited) σ = trackAll rest σ.
Proof.
  revert visited σ l extra.
  induction rest as [|logMessage rest IH]; intros visited σ l extra Hl Hqueue; [done|].
  simpl in Hqueue |- *. unfold bind at 1 2. unfold get at 1, deref at 1; simpl.
  rewrite Hl; simpl. rewrite Hqueue, list_lookup_middle by done.
  pose proof (trackLogMessage_logsAppended logMessage σ) as Happ.
  unfold bind. destruct (trackLogMessage logMessage σ) as [[[[]|e] σ'] cs]; simpl in *.
  2: done.
  destruct Happ as (_ & _ & _ & _ & _ & Hlog). rewrite Hl in Hlog.
  unfold final in Hlog; simpl in Hlog.
  destruct (logger (this σ')) as [l'|] eqn:Hl'; [|done]. destruct Hlog as [extra' Hq].
  rewrite <- (IH (visited ++ [logMessage]) σ' l' (extra ++ extra')); [|done|].
  - rewrite length_app, Nat.add_1_r. by destruct (forEach_queue _ _ _) as [[? ?] ?].
  - rewrite Hq, Hqueue. rewrite <- !app_assoc. simpl. by rewrite <- !app_assoc.
Qed.

Lemma flushInternalLogs_flushSnapshot (σ : Runtime) :
  flushInternalLogs σ = flushSnapshot σ.
Proof.
  unfold flushInternalLogs, flushSnapshot, bind, get, deref; simpl.
  destruct (logger (this σ)) as [l|] eqn:Hl; simpl; [|done].
  pose proof (forEach_queue_trackAll [] (DiagnosticLogger.queue l) σ l [] Hl) as Heq.
  rewrite app_nil_l, app_nil_r in Heq. change (length []) with O in Heq.
  by rewrite Heq.
Qed.

Lemma trackAll_logsAppended (messages : list _InternalLogMessage) (σ : Runtime) :
  logsAppended (this σ) (this (final (trackAll messages σ))).
Proof.
  revert σ. induction messages as [|logMessage rest IH]; intros σ; simpl.
  - apply logsAppended_refl.
  - unfold bind.
    pose proof (trackLogMessage_logsAppended logMessage σ) as Hfirst.
    destruct (trackLogMessage logMessage σ) as [[[[]|e] σ'] cs]; [|done].
    pose proof (IH σ') as Hrest.
    destruct (trackAll rest σ') as [[r σ''] cs'].
    by apply (logsAppended_trans _ (this σ')).
Qed.

Lemma ready_preserved (c c' : t) :
  config c' = config c → _extensions c' = _extensions c →
  (is_Some (_notificationManager c) → is_Some (_notificationManager c')) →
  (is_Some (logger c) → is_Some (logger c')) →
  ready c → ready c'.
Proof.
  unfold ready. intros -> -> Hm Hl (? & ? & ? & ?). split_and!; auto.
Qed.

Lemma ready_logsAppended (c c' : t) : logsAppended c c' → ready c → ready c'.
Proof.
  intros (Hc & He & Hm & _ & _ & Hl). apply ready_preserved; [done|done|by rewrite Hm|].
  destruct (logger c), (logger c'); try done; by intros [? [=]].
Qed.

(** An initialized instance is ready, in whatever way it has been used. *)
Lemma reachable_ready (σ : Runtime) :
  reachable σ → _isInitialized (this σ) = true → ready (this σ).
Proof.
  induction 1 as [n|σ config extensions _ IH|σ telemetryItem _ IH|σ listener _ IH
                 |σ listener _ IH|σ _ IH|σ messages _ IH].
  - done.
  - rewrite initialize_cases.
    destruct (_isInitialized (this σ)) eqn:Hflag; [intros _; by apply IH|].
    destruct config as [c|]; [|unfold final; simpl; congruence].
    destruct (IConfiguration.instrumentationKey c) as [k|] eqn:Hk;
      [|unfold final; simpl; congruence].
    simpl. destruct (validate _) as [valid|]; [|done].
    destruct (channelQueue _ _) as [|g gs]; [done|]. intros _.
    unfold ready, final; simpl. split_and!; [|done..|].
    + eexists. split; [done|]. simpl. by rewrite Hk.
    + eexists. split; [done|].
      rewrite sort_Permutation, elem_of_app. right. by left.
  - pose proof (track_logsAppended telemetryItem σ) as Happ.
    intros Hflag. apply (ready_logsAppended _ _ Happ), IH.
    destruct Happ as (_ & _ & _ & <- & _). done.
  - unfold addNotificationListener, bind, get, deref; simpl.
    destruct (_notificationManager (this σ)) as [m|] eqn:Hm; [|done].
    unfold final; simpl. intros Hflag.
    apply (ready_preserved (this σ)); simpl; [done|done|by eauto|done|by apply IH].
  - unfold removeNotificationListener, bind, get, deref; simpl.
    destruct (_notificationManager (this σ)) as [m|] eqn:Hm; [|done].
    unfold final; simpl. intros Hflag.
    apply (ready_preserved (this σ)); simpl; [done|done|by eauto|done|by apply IH].
  - rewrite flushInternalLogs_flushSnapshot.
    unfold flushSnapshot, bind, get, deref; simpl.
    destruct (logger (this σ)) as [l|] eqn:Hl; [|done]. simpl.
    pose proof (trackAll_logsAppended (DiagnosticLogger.queue l) σ) as Happ.
    destruct (trackAll (DiagnosticLogger.queue l) σ) as [[[[]|e] σ'] cs];
      unfold final in *; simpl in *.
    + intros Hflag. destruct Happ as (Hc & He & Hm & Hi & _).
      apply (ready_preserved (this σ)); simpl; [done|done|by rewrite Hm|by eauto|].
      apply IH. by rewrite <- Hi.
    + intros Hflag. apply (ready_logsAppended _ _ Happ), IH.
      destruct Happ as (_ & _ & _ & <- & _). done.
  - simpl. pose proof (logsAppended_appendLogs messages (this σ)) as Happ.
    intros Hflag. apply (ready_logsAppended _ _ Happ), IH.
    destruct Happ as (_ & _ & _ & <- & _). done.
Qed.

End States.

(** * Tracking on an initialized instance *)

Section Tracking.
Context `{!Collaborators}.


Lemma discardsReceived_cons (listener : INotificationListener) (c : Call) (cs : list Call) :
  discardsReceived listener (c :: cs) =
  match c with
  | listener_eventsDiscarded l events reason =>
      if decide (l = listener)
      then (events, reason) :: discardsReceived listener cs
      else discardsReceived listener cs
  | _ => discardsReceived listener cs
  end.
Proof. unfold discardsReceived; simpl. destruct c; try done. by case_decide. Qed.

Lemma discardsReceived_eventsDiscarded (listener : INotificationListener)
    (events : list (option ITelemetryItem)) (reason : EventsDiscardedReason)
    (manager : NotificationManager) :
  discardsReceived listener (NotificationManager.eventsDiscarded events reason manager)
  = replicate (if INotificationListener.eventsDiscarded listener
               then registrations listener manager else 0%nat)
              (events, reason).
Proof.
  unfold NotificationManager.eventsDiscarded, registrations.
  induction (NotificationManager.listeners manager) as [|l ls IH].
  - by destruct (INotificationListener.eventsDiscarded listener).
  - rewrite !filter_cons.
    destruct (decide (INotificationListener.eventsDiscarded l = true)) as [Hcap|Hcap].
    + rewrite fmap_cons, discardsReceived_cons, IH.
      destruct (decide (l = listener)) as [->|Hne]; [|done].
      by rewrite Hcap.
    + rewrite IH. destruct (decide (l = listener)) as [->|Hne]; [|done].
      by destruct (INotificationListener.eventsDiscarded listener).
Qed.


(** C5, as the code and the notification manager of the specification have
    it.  On an initialized instance, [track(null)] throws "Invalid telemetry
    item"; before that it has called [eventsDiscarded] on the notification
    manager exactly once, with the null item and [InvalidEvent], and has
    changed nothing.  Through that call a listener that handles discards is
    notified once for each of its registrations, and a listener that does
    not handle discards is not notified. *)
Theorem track_null_notifies (σ : Runtime)
    (Hreach : reachable σ) (Hinit : _isInitialized (this σ) = true) :
  ∃ manager,
    _notificationManager (this σ) = Some manager
    ∧ track None σ
      = (Throw (Error "Invalid telemetry item"), σ,
         notificationManager_eventsDiscarded [None] InvalidEvent
         :: NotificationManager.eventsDiscarded [None] InvalidEvent manager)
    ∧ ∀ listener,
        discardsReceived listener (trace (track None σ))
        = replicate (if INotificationListener.eventsDiscarded listener
                     then registrations listener manager else 0%nat)
                    ([None], InvalidEvent).
Proof.
  destruct (reachable_ready σ Hreach Hinit) as (_ & [manager Hm] & _).
  exists manager.
  assert (track None σ
          = (Throw (Error "Invalid telemetry item"), σ,
             notificationManager_eventsDiscarded [None] InvalidEvent
             :: NotificationManager.eventsDiscarded [None] InvalidEvent manager)) as Htrack.
  { unfold track, bind. rewrite _notififyInvalidEvent_cases, Hm. simpl.
    by rewrite app_nil_r. }
  split_and!; [done..|].
  intros listener. rewrite Htrack. unfold trace. cbn [snd].
  rewrite discardsReceived_cons. apply discardsReceived_eventsDiscarded.
Qed.

End Tracking.

(** * Internal logs *)

Section InternalLogs.
Context `{!Collaborators}.

(** C8, as the code has it.  With a configured interval that is absent, zero
    or negative, [pollInternalLogs] schedules its callback with a period of
    10000.  Each run of the callback converts the messages that are in the
    queue when it starts, and only those, in order, each into an item whose
    name is "InternalMessageId: " followed by the message id, whose base
    type is the internal-log data type and whose base data carries the
    message text, and tracks it; a run that completes leaves the queue
    empty. *)
Theorem pollInternalLogs_flushes_snapshot (σ : Runtime) (c : IConfiguration)
    (Hconfig : config (this σ) = Some c)
    (Hinterval : ∀ z, IConfiguration.diagnosticLogInterval c = Some z → z ≤ 0) :
  pollInternalLogs σ = (Normal (flushInternalLogs, 10000), σ, [])
  ∧ (∀ σ', flushInternalLogs σ' = flushSnapshot σ')
  ∧ (∀ σ' c' logMessage, config (this σ') = Some c' →
       trackLogMessage logMessage σ'
       = track (Some {| ITelemetryItem.name :=
                          Some ("InternalMessageId: "
                                +:+ pretty (_InternalLogMessage.messageId logMessage));
                        ITelemetryItem.iKey := IConfiguration.instrumentationKey c';
                        ITelemetryItem.time := Some (toISOString (clock σ'));
                        ITelemetryItem.ver := None;
                        ITelemetryItem.baseType := Some dataType;
                        ITelemetryItem.baseData :=
                          Some [("message", _InternalLogMessage.message logMessage)] |})
               (tick σ'))
  ∧ (∀ σ', outcome (flushInternalLogs σ') = Normal tt →
           logger (this (final (flushInternalLogs σ')))
           = Some {| DiagnosticLogger.queue := [] |}).
Proof.
  split_and!.
  - unfold pollInternalLogs, bind, get, deref; simpl. rewrite Hconfig; simpl.
    destruct (IConfiguration.diagnosticLogInterval c) as [z|] eqn:Hz; [|done].
    specialize (Hinterval z eq_refl).
    destruct (0 <? z) eqn:Hpos; [lia|done].
  - apply flushInternalLogs_flushSnapshot.
  - intros σ' c' logMessage Hc'. by rewrite trackLogMessage_cases, Hc'.
  - intros σ'. rewrite flushInternalLogs_flushSnapshot.
    unfold flushSnapshot, bind, get, deref; simpl.
    destruct (logger (this σ')) as [l|]; [|done]. simpl.
    by destruct (trackAll _ _) as [[[[]|e] σ''] cs].
Qed.

End InternalLogs.

(** * Equal priorities *)

Section SamePriority.
Context `{!Collaborators}.

(** Once an identifier is recorded for a priority, every later entry with
    that priority, if the priority is not 0, is reported together with it. *)
Lemma warnSamePriority_seen (exts after : list IPlugin) (seen : gmap Z string)
    (b : IPlugin) (p : Z) (previous : string) :
  seen !! p = Some previous →
  ITelemetryPlugin.priority b = Some p → p ≠ 0 →
  warnToConsole ("Two extensions have same priority" +:+ previous +:+ ", "
                 +:+ ITelemetryPlugin.identifier b)
  ∈ warnSamePriority (exts ++ b :: after) seen.
Proof.
  intros Hseen Hb Hp. revert seen Hseen.
  induction exts as [|t exts IH]; intros seen Hseen; simpl.
  - rewrite Hb. simpl. destruct (p =? 0) eqn:Hz; [lia|]. simpl. rewrite Hseen. by left.
  - destruct (ITelemetryPlugin.priority t) as [q|]; [|by apply IH].
    simpl. destruct (negb (q =? 0)); [|by apply IH].
    destruct (seen !! q) eqn:Hq; [right; by apply IH|].
    apply IH. rewrite lookup_insert_ne; [done|]. by intros ->; simplify_eq.
Qed.

(** Of two entries with the same priority other than 0, the later one is
    reported in a warning together with the identifier first seen with
    that priority. *)
Lemma warnSamePriority_collision (before between after : list IPlugin)
    (seen : gmap Z string) (a b : IPlugin) (p : Z) :
  ITelemetryPlugin.priority a = Some p →
  ITelemetryPlugin.priority b = Some p → p ≠ 0 →
  ∃ previous,
    warnToConsole ("Two extensions have same priority" +:+ previous +:+ ", "
                   +:+ ITelemetryPlugin.identifier b)
    ∈ warnSamePriority (before ++ a :: between ++ b :: after) seen.
Proof.
  intros Ha Hb Hp. revert seen.
  induction before as [|t before IH]; intros seen; simpl.
  - rewrite Ha. simpl. destruct (p =? 0) eqn:Hz; [lia|]. simpl.
    destruct (seen !! p) as [previous|] eqn:Hseen.
    + exists previous. right. by apply (warnSamePriority_seen _ _ _ _ p).
    + exists (ITelemetryPlugin.identifier a).
      apply (warnSamePriority_seen _ _ _ _ p); [|done..].
      by rewrite lookup_insert_eq.
  - destruct (ITelemetryPlugin.priority t) as [q|]; [|by apply IH].
    simpl. destruct (negb (q =? 0)); [|by apply IH].
    destruct (seen !! q); [|by apply IH].
    destruct (IH seen) as [previous Hin]. exists previous. by right.
Qed.

End SamePriority.

(** * Further properties of [initialize] *)

Import CoreNotions.

Section Validation.
Context `{!Collaborators}.

Lemma validate_Some_iff (exts : list (option IPlugin)) (valid : list IPlugin) :
  validate exts = Some valid ↔
  exts = Some <$> valid ∧ Forall (λ e, ITelemetryPlugin.initialize e = true) valid.
Proof.
  revert valid. induction exts as [|[e|] exts IH]; intros valid; simpl.
  - split; [intros [= <-]; by split|]. intros [Hnil _]. by destruct valid.
  - destruct (ITelemetryPlugin.initialize e) eqn:He.
    + destruct (validate exts) as [v|].
      * split.
        -- intros [= <-]. destruct (proj1 (IH v) eq_refl) as [-> Hv].
           split; [done|by constructor].
        -- intros [Heq Hall]. destruct valid as [|e' valid]; [done|].
           injection Heq as -> Hexts. apply Forall_cons in Hall as [_ Hall].
           f_equal. f_equal. by apply Some_inj, IH.
      * split; [done|]. intros [Heq Hall]. destruct valid as [|e' valid]; [done|].
        injection Heq as -> Hexts. apply Forall_cons in Hall as [_ Hall].
        by pose proof (proj2 (IH valid) (conj Hexts Hall)).
    + split; [done|]. intros [Heq Hall]. destruct valid as [|e' valid]; [done|].
      injection Heq as -> Hexts. apply Forall_cons in Hall as [He' _]. congruence.
  - split; [done|]. intros [Heq _]. by destruct valid.
Qed.

Lemma validate_None_iff (exts : list (option IPlugin)) :
  validate exts = None ↔ ¬ Forall validExtension exts.
Proof.
  split.
  - induction exts as [|[e|] exts IH]; simpl; [done| |].
    + destruct (ITelemetryPlugin.initialize e) eqn:He.
      * destruct (validate exts) as [v|]; [done|].
        intros _ [_ Hall]%Forall_cons. by apply IH.
      * intros _ [(p & [= <-] & Hp) _]%Forall_cons. congruence.
    + by intros _ [(p & [=] & _) _]%Forall_cons.
  - intros Hno. destruct (validate exts) as [v|] eqn:Hvalid; [|done].
    destruct Hno. apply validate_Some_iff in Hvalid as [-> Hall].
    apply Forall_forall. intros e (p & -> & Hp)%list_elem_of_fmap.
    exists p. split; [done|]. by eapply Forall_forall in Hall.
Qed.

Lemma validate_Some_valid (exts : list (option IPlugin)) (valid : list IPlugin) :
  validate exts = Some valid → Forall validExtension exts ∧ exts = Some <$> valid.
Proof.
  intros Hvalid. split; [|by apply validate_Some_iff in Hvalid as [-> _]].
  destruct (validate_None_iff exts) as [_ Hnone].
  apply validate_Some_iff in Hvalid as [-> Hall].
  apply Forall_forall. intros e (p & -> & Hp)%list_elem_of_fmap.
  exists p. split; [done|]. by eapply Forall_forall in Hall.
Qed.

(** X1.  On an instance that is not initialized, with a configuration that
    has an instrumentation key, [initialize] throws "Extensions must provide
    callback to initialize" exactly when an entry of the merged list (what
    the instance already holds, then the given extensions, then those of the
    configuration) is null or has no [initialize] callback; it has then
    called no hook and written no warning, the instance is not marked
    initialized and it keeps the merged list. *)
Theorem initialize_validates_extensions (σ : Runtime) (c : IConfiguration)
    (extensions : list (option IPlugin))
    (Hnew : _isInitialized (this σ) = false)
    (Hkey : is_Some (IConfiguration.instrumentationKey c)) :
  (outcome (initialize (Some c) extensions σ) = Throw (Error validationError)
   ↔ ¬ Forall validExtension
         (_extensions (this σ) ++ extensions ++ default [] (IConfiguration.extensions c)))
  ∧ (outcome (initialize (Some c) extensions σ) = Throw (Error validationError) →
     trace (initialize (Some c) extensions σ) = []
     ∧ _isInitialized (this (final (initialize (Some c) extensions σ))) = false
     ∧ _extensions (this (final (initialize (Some c) extensions σ)))
       = _extensions (this σ) ++ extensions ++ default [] (IConfiguration.extensions c)).
Proof.
  destruct Hkey as [k Hk]. rewrite initialize_cases, Hnew, Hk. simpl.
  destruct (validate _) as [valid|] eqn:Hvalid.
  - assert (Forall validExtension
              (_extensions (this σ) ++ extensions
               ++ default [] (IConfiguration.extensions c))) as Hall.
    { destruct (validate_Some_valid _ _ Hvalid) as [Hall _]. exact Hall. }
    unfold outcome; simpl. split.
    + split; [by destruct (channelQueue _ _)|done].
    + by destruct (channelQueue _ _).
  - split; [|done]. split; [|done]. intros _. by apply validate_None_iff.
Qed.

(** X2.  A failed validation is permanent.  Once [initialize] has thrown
    "Extensions must provide callback to initialize", the entry that caused
    it stays in the extension list, so no later sequence of [initialize]
    calls, whatever their arguments, ever initializes the instance. *)
Theorem failed_validation_is_permanent (σ σ' : Runtime)
    (config : option IConfiguration) (extensions : list (option IPlugin)) (cs : list Call)
    (Hfailed : initialize config extensions σ = (Throw (Error validationError), σ', cs)) :
  ∀ attempts, _isInitialized (this (retries attempts σ')) = false.
Proof.
  assert (_isInitialized (this σ') = false
          ∧ ¬ Forall validExtension (_extensions (this σ'))) as Hpoisoned.
  { revert Hfailed. rewrite initialize_cases.
    destruct (_isInitialized (this σ)); [done|].
    destruct config as [c|]; [|done].
    destruct (IConfiguration.instrumentationKey c); [|done].
    simpl. destruct (validate _) eqn:Hvalid; [by destruct (channelQueue _ _)|].
    intros [= <- <-]. simpl. split; [done|]. by apply validate_None_iff. }
  clear Hfailed. intros attempts. revert σ' Hpoisoned.
  induction attempts as [|[config' extensions'] attempts IH]; intros σ' [Hflag Hinvalid];
    [done|].
  simpl. apply IH. rewrite initialize_cases, Hflag.
  destruct config' as [c'|]; [|done].
  destruct (IConfiguration.instrumentationKey c'); [|done].
  simpl. destruct (validate _) eqn:Hvalid.
  - apply validate_Some_iff in Hvalid as [Heq Hall].
    destruct Hinvalid. rewrite Forall_forall. intros e He.
    assert (e ∈ Some <$> l) as Hin by (rewrite <- Heq, elem_of_app; by left).
    apply list_elem_of_fmap in Hin as (p & -> & Hp).
    exists p. split; [done|]. rewrite Forall_forall in Hall. by apply Hall.
  - unfold final; simpl. split; [done|].
    intros Hall. apply Hinvalid. by apply Forall_app in Hall as [? _].
Qed.

(** X3.  Once [initialize] is past the check of the configuration, the
    instance holds the configuration with [extensions] turned into a list,
    with the notification manager under the key "NotificationManager" of
    [extensionConfig] (replacing what was there) and with every other key of
    [extensionConfig], the instrumentation key and the flush interval as
    they were given, whether or not the call then succeeds. *)
Theorem initialize_adopts_configuration (σ : Runtime) (c : IConfiguration)
    (extensions : list (option IPlugin))
    (Hnew : _isInitialized (this σ) = false)
    (Hkey : is_Some (IConfiguration.instrumentationKey c)) :
  ∃ c' extensionConfig,
    config (this (final (initialize (Some c) extensions σ))) = Some c'
    ∧ IConfiguration.instrumentationKey c' = IConfiguration.instrumentationKey c
    ∧ IConfiguration.diagnosticLogInterval c' = IConfiguration.diagnosticLogInterval c
    ∧ IConfiguration.extensions c' = Some (default [] (IConfiguration.extensions c))
    ∧ IConfiguration.extensionConfig c' = Some extensionConfig
    ∧ extensionConfig !! "NotificationManager" = Some NotificationManagerRef
    ∧ ∀ key, key ≠ "NotificationManager" →
             extensionConfig !! key
             = IConfiguration.extensionConfig c ≫= (λ m, m !! key).
Proof.
  destruct Hkey as [k Hk].
  exists (adoptConfig c),
    (<["NotificationManager" := NotificationManagerRef]>
       (default ∅ (IConfiguration.extensionConfig c))).
  split_and!; try done.
  - rewrite initialize_cases, Hnew, Hk. simpl. by destruct (validate _).
  - apply lookup_insert_eq.
  - intros key Hne. rewrite lookup_insert_ne by done.
    by destruct (IConfiguration.extensionConfig c).
Qed.

End Validation.

Section Order.
Context `{!Collaborators}.

Lemma insert_keeps_init_only (x : IPlugin) (l : list IPlugin) :
  filter (λ e, ITelemetryPlugin.processTelemetry e = false) (insert x l)
  = filter (λ e, ITelemetryPlugin.processTelemetry e = false) (x :: l).
Proof.
  induction l as [|y l IH]; [done|]. cbn [insert].
  destruct (comesAfter x y) eqn:Hafter; [|done].
  apply comesAfter_true in Hafter as [Hx _].
  rewrite (filter_cons _ y), IH, !(filter_cons _ x), (filter_cons _ y).
  destruct (decide (ITelemetryPlugin.processTelemetry x = false)); [congruence|done].
Qed.

(** The sort keeps the entries without a processing hook in the order in
    which they were given. *)
Lemma sort_keeps_init_only (l : list IPlugin) :
  filter (λ e, ITelemetryPlugin.processTelemetry e = false) (sort l)
  = filter (λ e, ITelemetryPlugin.processTelemetry e = false) l.
Proof.
  unfold sort. induction l as [|x l IH]; [done|]. cbn [foldr].
  rewrite insert_keeps_init_only, !(filter_cons _ x), IH. done.
Qed.

Lemma sorted_init_only_first (l : list IPlugin) :
  StronglySorted mayPrecede l → Forall comparable l →
  l = filter (λ e, ITelemetryPlugin.processTelemetry e = false) l
      ++ filter (λ e, ITelemetryPlugin.processTelemetry e = true) l
  ∧ StronglySorted priorityLe (filter (λ e, ITelemetryPlugin.processTelemetry e = true) l).
Proof.
  induction 1 as [|x l Hsorted IH Hx]; intros Hcomp; [by split; [|constructor]|].
  apply Forall_cons in Hcomp as [Hcx Hcl].
  destruct (IH Hcl) as [Heq Hasc]. rewrite !(filter_cons _ x).
  destruct (ITelemetryPlugin.processTelemetry x) eqn:Hpx.
  - rewrite decide_False, decide_True by done.
    assert (Forall (λ e, ITelemetryPlugin.processTelemetry e = true ∧ priorityLe x e) l)
      as Hall.
    { rewrite Forall_forall in Hx, Hcl |- *. intros e He.
      specialize (Hx e He). apply mayPrecede_spec in Hx as [?|[? ?]]; [congruence| |done|auto].
      done. }
    assert (filter (λ e, ITelemetryPlugin.processTelemetry e = false) l = []) as Hnone.
    { clear -Hall. induction Hall as [|e l [He _] _ IHl]; [done|].
      rewrite filter_cons, decide_False by congruence. done. }
    assert (filter (λ e, ITelemetryPlugin.processTelemetry e = true) l = l) as Hsame.
    { clear -Hall. induction Hall as [|e l [He _] _ IHl]; [done|].
      rewrite filter_cons, decide_True by done. by f_equal. }
    rewrite Hnone, Hsame. split; [done|].
    constructor; [by rewrite <- Hsame|].
    eapply Forall_impl; [exact Hall|]. by intros e [_ ?].
  - rewrite decide_True, decide_False by done. split; [|done].
    simpl. by f_equal.
Qed.

(** X4.  After a successful [initialize] on a fresh instance, with
    extensions whose processing entries have numeric priorities, the
    extension list holds what was given and the channel controller, nothing
    else; the entries without a processing hook come first, in the order in
    which they were given, and the entries with a processing hook follow by
    ascending priority. *)
Theorem pipeline_is_ordered (σ σ' : Runtime) (c : IConfiguration)
    (extensions : list (option IPlugin)) (plugins : list IPlugin) (cs : list Call)
    (Hfresh : _extensions (this σ) = [])
    (Hmerged : extensions ++ default [] (IConfiguration.extensions c) = Some <$> plugins)
    (Hcomparable : Forall comparable plugins)
    (Hinit : initialize (Some c) extensions σ = (Normal tt, σ', cs)) :
  ∃ pipeline,
    _extensions (this σ') = Some <$> pipeline
    ∧ pipeline ≡ₚ plugins ++ [channelController]
    ∧ pipeline
      = filter (λ e, ITelemetryPlugin.processTelemetry e = false) plugins
        ++ filter (λ e, ITelemetryPlugin.processTelemetry e = true) pipeline
    ∧ StronglySorted priorityLe
        (filter (λ e, ITelemetryPlugin.processTelemetry e = true) pipeline).
Proof.
  destruct (initialize_fresh _ _ _ _ _ _ Hfresh Hmerged Hinit) as (_ & _ & Hexts & _).
  exists (sort (plugins ++ [channelController])).
  assert (Forall comparable (sort (plugins ++ [channelController]))) as Hcomp.
  { rewrite sort_Permutation. apply Forall_app. split; [done|].
    constructor; [apply channelController_comparable|constructor]. }
  assert (Forall comparable (plugins ++ [channelController])) as Hcomp'
    by (by rewrite <- sort_Permutation).
  destruct (sorted_init_only_first _ (sort_StronglySorted _ Hcomp') Hcomp) as [Heq Hasc].
  split_and!; [done|apply sort_Permutation| |done].
  rewrite Heq at 1. f_equal.
  rewrite sort_keeps_init_only, filter_app, (filter_cons _ channelController).
  rewrite decide_False by done. by rewrite filter_nil, app_nil_r.
Qed.

(** X5.  A call of [initialize] either stops before it has called anything,
    or it has called, in this order: [warnToConsole] and [setNextPlugin]
    only; then [initialize] of the channel controller, once, with the
    extension list as the instance holds it afterwards; then the
    [initialize] hook of each entry of that list whose priority is below
    the priority of the channel controller, once per entry and in the order
    of the list, and nothing else. *)
Theorem initialize_calls_in_order (σ : Runtime) (config : option IConfiguration)
    (extensions : list (option IPlugin)) :
  trace (initialize config extensions σ) = []
  ∨ ∃ pipeline before,
      _extensions (this (final (initialize config extensions σ))) = Some <$> pipeline
      ∧ trace (initialize config extensions σ)
        = before ++ channelController_initialize pipeline
                    :: (plugin_initialize
                        <$> filter (λ e, number_lt (ITelemetryPlugin.priority e)
                                           ChannelControllerPriority = true) pipeline)
      ∧ Forall (λ call, (∃ message, call = warnToConsole message)
                        ∨ ∃ curr next, call = setNextPlugin curr next) before
      ∧ initialized (trace (initialize config extensions σ))
        = filter (λ e, number_lt (ITelemetryPlugin.priority e)
                         ChannelControllerPriority = true) pipeline.
Proof.
  destruct (initialize_trace config extensions σ) as [Hnil|(sorted & Hexts & Htrace)];
    [by left|].
  right. exists sorted, (warnSamePriority sorted ∅ ++ setNextPlugins sorted).
  assert (Forall (λ call, (∃ message, call = warnToConsole message)
                          ∨ ∃ curr next, call = setNextPlugin curr next)
            (warnSamePriority sorted ∅ ++ setNextPlugins sorted)) as Hbefore.
  { apply Forall_forall. intros call [Hw|Hl]%elem_of_app.
    - left. by eapply warnSamePriority_calls.
    - right. apply setNextPlugins_calls in Hl as (a & b & -> & _). eauto. }
  split_and!; [done|by rewrite Htrace, <- app_assoc|done|].
  rewrite Htrace, app_assoc. unfold initialized, initializeRemaining.
  rewrite omap_app.
  assert (∀ l, Forall (λ call, (∃ message, call = warnToConsole message)
                               ∨ ∃ curr next, call = setNextPlugin curr next) l →
               omap (λ c, match c with plugin_initialize e => Some e | _ => None end) l = [])
    as Hskip.
  { induction 1 as [|call l [[m ->]|(a & b & ->)] _ IH]; simpl; done. }
  rewrite (Hskip _ Hbefore). simpl.
  induction (filter _ sorted) as [|e l IH]; [done|].
  rewrite fmap_cons. simpl. by f_equal.
Qed.

End Order.

Section Warnings.
Context `{!Collaborators}.

Lemma checkedPriorities_cons (t : IPlugin) (rest : list IPlugin) :
  checkedPriorities (t :: rest) =
  match ITelemetryPlugin.priority t with
  | Some p => if decide (p ≠ 0) then p :: checkedPriorities rest else checkedPriorities rest
  | None => checkedPriorities rest
  end.
Proof.
  unfold checkedPriorities. simpl.
  destruct (ITelemetryPlugin.priority t) as [p|]; simpl; [|done].
  by rewrite filter_cons.
Qed.

Lemma warnSamePriority_distinct (exts : list IPlugin) (seen : gmap Z string) :
  NoDup (checkedPriorities exts) →
  (∀ z, z ∈ checkedPriorities exts → seen !! z = None) →
  warnSamePriority exts seen = [].
Proof.
  revert seen. induction exts as [|t rest IH]; intros seen Hnodup Hfresh; [done|].
  rewrite checkedPriorities_cons in Hnodup, Hfresh. simpl.
  destruct (ITelemetryPlugin.priority t) as [p|]; [|by apply IH].
  simpl. destruct (decide (p ≠ 0)) as [Hp|Hp].
  - destruct (p =? 0) eqn:Hz; [lia|]. simpl.
    apply NoDup_cons in Hnodup as [Hnew Hnodup].
    rewrite (Hfresh p) by (by left). apply IH; [done|].
    intros z Hz'. rewrite lookup_insert_ne by (by intros ->).
    apply Hfresh. by right.
  - destruct (p =? 0) eqn:Hz; [|lia]. simpl. by apply IH.
Qed.

Lemma warnings_none (cs : list Call) :
  (∀ message, warnToConsole message ∉ cs) → warnings cs = [].
Proof.
  induction cs as [|c cs IH]; intros Hnone; [done|].
  assert (warnings cs = []) as Hrest by (apply IH; intros m Hm; apply (Hnone m); by right).
  destruct c as [m| | | | | |]; try done. destruct (Hnone m). by left.
Qed.

Lemma initialize_warnings (sorted : list IPlugin) (message : string) :
  warnToConsole message
  ∈ warnSamePriority sorted ∅ ++ setNextPlugins sorted
    ++ channelController_initialize sorted :: initializeRemaining sorted →
  warnToConsole message ∈ warnSamePriority sorted ∅.
Proof.
  rewrite !elem_of_app, elem_of_cons.
  intros [?|[(? & ? & [=] & _)%setNextPlugins_calls
            |[[=]|(? & ? & [=] & _)%initializeRemaining_calls]]].
  done.
Qed.

(** X6.  No false alarm.  After a successful [initialize] on a fresh
    instance, if the priorities of the given extensions and of the channel
    controller that are neither absent nor 0 are pairwise distinct, no
    warning has been written. *)
Theorem initialize_warns_only_on_collision (σ σ' : Runtime) (c : IConfiguration)
    (extensions : list (option IPlugin)) (plugins : list IPlugin) (cs : list Call)
    (Hfresh : _extensions (this σ) = [])
    (Hmerged : extensions ++ default [] (IConfiguration.extensions c) = Some <$> plugins)
    (Hdistinct : NoDup (checkedPriorities (plugins ++ [channelController])))
    (Hinit : initialize (Some c) extensions σ = (Normal tt, σ', cs)) :
  warnings cs = [].
Proof.
  destruct (initialize_fresh _ _ _ _ _ _ Hfresh Hmerged Hinit) as (_ & _ & _ & ->).
  apply warnings_none. intros message Hin%initialize_warnings. revert Hin.
  rewrite warnSamePriority_distinct; [by intros ?%elem_of_nil| |done].
  unfold checkedPriorities in *. by rewrite sort_Permutation.
Qed.

Lemma Permutation_two_positions {A : Type} (l l1 l2 l3 : list A) (a b : A) :
  l ≡ₚ l1 ++ a :: l2 ++ b :: l3 →
  ∃ s1 s2 s3 x y, l = s1 ++ x :: s2 ++ y :: s3 ∧ (x = a ∧ y = b ∨ x = b ∧ y = a).
Proof.
  intros Hperm.
  assert (a ∈ l) as Ha by (rewrite Hperm, elem_of_app; right; by left).
  apply list_elem_of_split in Ha as (t1 & t2 & ->).
  rewrite <- !Permutation_middle in Hperm. apply Permutation_cons_inv in Hperm.
  assert (b ∈ t1 ++ t2) as Hb.
  { rewrite Hperm. set_solver. }
  apply elem_of_app in Hb as [Hb|Hb]; apply list_elem_of_split in Hb as (u1 & u2 & ->).
  - exists u1, u2, t2, b, a. split; [by rewrite <- app_assoc|by right].
  - exists t1, u1, u2, a, b. split; [done|by left].
Qed.

(** X7.  After a successful [initialize] on a fresh instance, if two of the
    given extensions have the same priority, other than 0, a warning has
    been written that ends with the identifier of one of the two, after the
    identifier first seen with that priority. *)
Theorem initialize_warns_on_collision (σ σ' : Runtime) (c : IConfiguration)
    (extensions : list (option IPlugin)) (cs : list Call)
    (l1 l2 l3 : list IPlugin) (a b : IPlugin) (p : Z)
    (Hfresh : _extensions (this σ) = [])
    (Hmerged : extensions ++ default [] (IConfiguration.extensions c)
               = Some <$> l1 ++ a :: l2 ++ b :: l3)
    (Ha : ITelemetryPlugin.priority a = Some p)
    (Hb : ITelemetryPlugin.priority b = Some p)
    (Hp : p ≠ 0)
    (Hinit : initialize (Some c) extensions σ = (Normal tt, σ', cs)) :
  ∃ previous colliding,
    (colliding = a ∨ colliding = b)
    ∧ warnToConsole ("Two extensions have same priority" +:+ previous +:+ ", "
                     +:+ ITelemetryPlugin.identifier colliding) ∈ cs.
Proof.
  destruct (initialize_fresh _ _ _ _ _ _ Hfresh Hmerged Hinit) as (_ & _ & _ & ->).
  pose proof (sort_Permutation ((l1 ++ a :: l2 ++ b :: l3) ++ [channelController])) as Hperm.
  rewrite <- app_assoc in Hperm. simpl in Hperm. rewrite <- app_assoc in Hperm.
  simpl in Hperm.
  apply Permutation_two_positions in Hperm
    as (s1 & s2 & s3 & x & y & Hsplit & Hxy).
  rewrite <- !app_assoc. simpl. rewrite <- !app_assoc. simpl. rewrite Hsplit.
  destruct (warnSamePriority_collision s1 s2 s3 ∅ x y p) as [previous Hin];
    [by destruct Hxy as [[-> ->]|[-> ->]]..|done|].
  exists previous, y. split; [destruct Hxy as [[_ ->]|[_ ->]]; auto|].
  apply elem_of_app. by left.
Qed.

End Warnings.

Section Retry.
Context `{!Collaborators}.

(** X8.  A call of [initialize] that has failed with "No channels
    available" leaves its sorted extension list, channel controller
    included, in the instance.  A later call that passes the validation adds
    its own extensions and the channel controller once more: the new
    extension list holds the earlier extensions, the new ones and the
    channel controller twice, and, unless the priority of the channel
    controller is 0, a same-priority warning naming the channel controller
    is written. *)
Theorem retry_after_no_channels (σ σ' : Runtime) (c c2 : IConfiguration)
    (extensions extensions2 : list (option IPlugin)) (plugins plugins2 : list IPlugin)
    (cs : list Call)
    (Hfresh : _extensions (this σ) = [])
    (Hmerged : extensions ++ default [] (IConfiguration.extensions c) = Some <$> plugins)
    (Hfailed : initialize (Some c) extensions σ
               = (Throw (Error "No channels available"), σ', cs))
    (Hkey2 : is_Some (IConfiguration.instrumentationKey c2))
    (Hmerged2 : extensions2 ++ default [] (IConfiguration.extensions c2)
                = Some <$> plugins2)
    (Hvalid2 : Forall (λ e, ITelemetryPlugin.initialize e = true) plugins2) :
  ∃ pipeline,
    _extensions (this (final (initialize (Some c2) extensions2 σ'))) = Some <$> pipeline
    ∧ pipeline ≡ₚ plugins ++ [channelController] ++ plugins2 ++ [channelController]
    ∧ (ChannelControllerPriority ≠ 0 →
       ∃ previous,
         warnToConsole ("Two extensions have same priority" +:+ previous +:+ ", "
                        +:+ ChannelControllerIdentifier)
         ∈ trace (initialize (Some c2) extensions2 σ')).
Proof.
  revert Hfailed. rewrite initialize_cases.
  destruct (_isInitialized (this σ)); [done|].
  destruct (IConfiguration.instrumentationKey c); [|done].
  simpl. rewrite Hfresh, app_nil_l, Hmerged.
  destruct (validate (Some <$> plugins)) as [valid|] eqn:Hvalid; [|done].
  apply validate_Some_iff in Hvalid as [Heq Hvalid].
  apply (inj (fmap Some)) in Heq as <-.
  destruct (channelQueue _ _); [|done]. intros [= <- <-].
  destruct Hkey2 as [k2 Hk2]. rewrite initialize_cases. simpl. rewrite Hk2.
  rewrite Hmerged2, <- fmap_app.
  set (sorted := sort (plugins ++ [channelController])).
  assert (validate (Some <$> sorted ++ plugins2) = Some (sorted ++ plugins2)) as ->.
  { apply validate_Some_iff. split; [done|]. apply Forall_app. split; [|done].
    subst sorted. rewrite sort_Permutation. apply Forall_app. split; [done|].
    by constructor. }
  exists (sort ((sorted ++ plugins2) ++ [channelController])).
  assert (sort ((sorted ++ plugins2) ++ [channelController])
          ≡ₚ plugins ++ [channelController] ++ plugins2 ++ [channelController]) as Hperm.
  { rewrite sort_Permutation. subst sorted. rewrite sort_Permutation.
    by rewrite <- !app_assoc. }
  split_and!; [done..|].
  intros Hprio. unfold trace; simpl.
  assert (plugins ++ [channelController] ++ plugins2 ++ [channelController]
          = plugins ++ channelController :: plugins2 ++ channelController :: []) as Hshape
    by done.
  rewrite Hshape in Hperm.
  apply Permutation_two_positions in Hperm as (s1 & s2 & s3 & x & y & -> & Hxy).
  assert (x = channelController ∧ y = channelController) as [-> ->]
    by (by destruct Hxy as [[-> ->]|[-> ->]]).
  destruct (warnSamePriority_collision s1 s2 s3 ∅ channelController channelController
              ChannelControllerPriority eq_refl eq_refl Hprio) as [previous Hin].
  exists previous. apply elem_of_app. by left.
Qed.

End Retry.

(** * Further properties of [track] *)

Section TrackMore.
Context `{!Collaborators}.

(** X9.  The defaults that [track] writes into an item never touch the
    name, the base type or the base data, never replace an instrumentation
    key or a timestamp that is a non-empty string, and never replace a
    version that is present, the empty string included; afterwards the item
    has a timestamp and a version. *)
Theorem defaults_keep_what_is_present (telemetryItem item : ITelemetryItem)
    (σ σ' : Runtime) (cs : list Call)
    (Hfilled : applyDefaults telemetryItem σ = (Normal item, σ', cs)) :
  ITelemetryItem.name item = ITelemetryItem.name telemetryItem
  ∧ ITelemetryItem.baseType item = ITelemetryItem.baseType telemetryItem
  ∧ ITelemetryItem.baseData item = ITelemetryItem.baseData telemetryItem
  ∧ (∀ k, ITelemetryItem.iKey telemetryItem = Some k → k ≠ "" →
          ITelemetryItem.iKey item = Some k)
  ∧ (∀ t, ITelemetryItem.time telemetryItem = Some t → t ≠ "" →
          ITelemetryItem.time item = Some t ∧ clock σ' = clock σ)
  ∧ (∀ v, ITelemetryItem.ver telemetryItem = Some v → ITelemetryItem.ver item = Some v)
  ∧ is_Some (ITelemetryItem.time item)
  ∧ is_Some (ITelemetryItem.ver item)
  ∧ this σ' = this σ ∧ cs = [].
Proof.
  revert Hfilled. rewrite applyDefaults_cases.
  destruct telemetryItem as [name iKey time ver baseType baseData]. simpl.
  destruct iKey as [k|], (config (this σ)) as [cfg|], time as [t|], ver as [v|];
    unfold falsy_string, set_iKey, set_time, set_ver; simpl;
    repeat (match goal with
            | |- context [bool_decide ?P] => destruct (bool_decide_reflect P)
            end; simpl); try done;
    intros [= <- <- <-]; simpl;
    split_and!; try done; try (by eexists);
    try (by intros ? [= <-] ?); try (by intros ? [= <-]).
Qed.

(** The three shapes of the calls of one [track]. *)
Lemma track_shape (telemetryItem : option ITelemetryItem) (σ : Runtime) :
  trace (track telemetryItem σ) = []
  ∨ (∃ item manager message,
        trace (track telemetryItem σ) = invalidEventCalls item manager
        ∧ outcome (track telemetryItem σ) = Throw (Error message))
  ∨ (∃ ext item,
        trace (track telemetryItem σ) = [processTelemetry ext item]
        ∧ outcome (track telemetryItem σ) = Normal tt).
Proof.
  destruct telemetryItem as [telemetryItem|]; unfold track, bind.
  - rewrite applyDefaults_cases.
    destruct (if falsy_string _ then _ else _) as [item1|]; [|by left].
    cbv zeta.
    set (item := if CoreUtils.isNullOrUndefined _ then _ else _).
    set (σ1 := if falsy_string (ITelemetryItem.time item1) then tick σ else σ).
    cbv beta iota zeta. rewrite _validateTelmetryItem_cases.
    destruct (missingField _) as [message|].
    { destruct (_notificationManager (this σ1)) as [manager|]; [|by left].
      right; left. by exists (Some item), manager, message. }
    unfold get. cbv beta iota zeta.
    destruct (dispatch_cases (_extensions (this σ1)) item σ1)
      as [->|[->|(ext & _ & _ & ->)]]; [by left|by left|].
    right; right. by exists ext, item.
  - rewrite _notififyInvalidEvent_cases.
    destruct (_notificationManager (this σ)) as [manager|]; [|by left].
    right; left. exists None, manager, "Invalid telemetry item".
    unfold trace, outcome, throw. cbn [fst snd]. by rewrite app_nil_r.
Qed.

(** X10.  One call of [track], in any state and for any argument, calls at
    most one processing hook and makes at most one [eventsDiscarded] call,
    and never both: when it has notified a discard it throws an error and
    no processing hook has been called; when a processing hook has been
    called it returns normally. *)
Theorem track_discards_or_dispatches (telemetryItem : option ITelemetryItem) (σ : Runtime) :
  (length (dispatched (trace (track telemetryItem σ))) ≤ 1)%nat
  ∧ (length (discards (trace (track telemetryItem σ))) ≤ 1)%nat
  ∧ (discards (trace (track telemetryItem σ)) ≠ [] →
     dispatched (trace (track telemetryItem σ)) = []
     ∧ ∃ message, outcome (track telemetryItem σ) = Throw (Error message))
  ∧ (dispatched (trace (track telemetryItem σ)) ≠ [] →
     outcome (track telemetryItem σ) = Normal tt).
Proof.
  assert (∀ ti manager,
            dispatched (invalidEventCalls ti manager) = []
            ∧ discards (invalidEventCalls ti manager) = [([ti], InvalidEvent)]) as Hnotify.
  { intros ti manager. unfold invalidEventCalls, NotificationManager.eventsDiscarded.
    assert (∀ ls : list INotificationListener,
              dispatched ((λ l, listener_eventsDiscarded l [ti] InvalidEvent) <$> ls) = []
              ∧ discards ((λ l, listener_eventsDiscarded l [ti] InvalidEvent) <$> ls) = [])
      as Hlisteners by (by induction ls as [|l ls [IH1 IH2]]).
    destruct (Hlisteners (filter (λ l, INotificationListener.eventsDiscarded l = true)
                            (NotificationManager.listeners manager))) as [Hd1 Hd2].
    revert Hd1 Hd2. generalize ((λ l, listener_eventsDiscarded l [ti] InvalidEvent)
      <$> filter (λ l, INotificationListener.eventsDiscarded l = true)
            (NotificationManager.listeners manager)).
    intros rest Hd1 Hd2. unfold dispatched, discards in *. simpl.
    split; [exact Hd1|]. f_equal. exact Hd2. }
  destruct (track_shape telemetryItem σ)
    as [->|[(item & manager & message & -> & ->)|(ext & item & -> & ->)]].
  - split_and!; [simpl; lia|simpl; lia|done|done].
  - destruct (Hnotify item manager) as [-> ->].
    split_and!; [simpl; lia|simpl; lia| |done]. intros _. split; [done|by eexists].
  - split_and!; [simpl; lia|simpl; lia|done|done].
Qed.

(** X11.  Before [initialize] has been called on a new instance, [track] of
    [null], [addNotificationListener], [removeNotificationListener],
    [pollInternalLogs] and the flush fail with a [TypeError] and change
    nothing; so does [track] of an item that lacks a name or a non-empty
    instrumentation key.  An item that has a name and a non-empty
    instrumentation key is accepted and silently lost: [track] returns
    normally and has called nothing. *)
Theorem methods_before_initialize (n : nat) (telemetryItem : ITelemetryItem)
    (listener : INotificationListener) :
  let σ := {| this := constructor; clock := n |} in
  track None σ = (Throw TypeError, σ, [])
  ∧ addNotificationListener listener σ = (Throw TypeError, σ, [])
  ∧ removeNotificationListener listener σ = (Throw TypeError, σ, [])
  ∧ outcome (pollInternalLogs σ) = Throw TypeError
  ∧ flushInternalLogs σ = (Throw TypeError, σ, [])
  ∧ (falsy_string (ITelemetryItem.iKey telemetryItem) = true →
     track (Some telemetryItem) σ = (Throw TypeError, σ, []))
  ∧ (falsy_string (ITelemetryItem.iKey telemetryItem) = false →
     ITelemetryItem.name telemetryItem = None →
     outcome (track (Some telemetryItem) σ) = Throw TypeError
     ∧ trace (track (Some telemetryItem) σ) = [])
  ∧ (falsy_string (ITelemetryItem.iKey telemetryItem) = false →
     is_Some (ITelemetryItem.name telemetryItem) →
     outcome (track (Some telemetryItem) σ) = Normal tt
     ∧ trace (track (Some telemetryItem) σ) = []
     ∧ this (final (track (Some telemetryItem) σ)) = constructor).
Proof.
  intros σ. split_and!; try done.
  - intros Hkey. unfold track, bind. rewrite applyDefaults_cases, Hkey. done.
  - intros Hkey Hname. unfold track, bind. rewrite applyDefaults_cases, Hkey.
    cbv beta iota zeta. rewrite _validateTelmetryItem_cases.
    assert (∀ i, ITelemetryItem.name i = None → missingField i
                 = Some "telemetry name required") as Hmissing
      by (intros i Hi; unfold missingField; by rewrite Hi).
    rewrite Hmissing; [by destruct (falsy_string (ITelemetryItem.time telemetryItem))|].
    by repeat case_match.
  - intros Hkey [name Hname]. unfold track, bind. rewrite applyDefaults_cases, Hkey.
    cbv beta iota zeta. rewrite _validateTelmetryItem_cases.
    destruct telemetryItem as [nm iKey time ver baseType baseData]; simpl in *. subst nm.
    destruct iKey as [k|]; [|done]. unfold missingField; simpl.
    destruct time as [t|], ver as [v|]; simpl; repeat case_bool_decide; done.
Qed.

End TrackMore.

(** * Further properties of the states *)

Section Frozen.
Context `{!Collaborators}.

Lemma samePipeline_refl (c : t) : samePipeline c c.
Proof. by unfold samePipeline. Qed.

Lemma samePipeline_trans (c1 c2 c3 : t) :
  samePipeline c1 c2 → samePipeline c2 c3 → samePipeline c1 c3.
Proof.
  unfold samePipeline. intros (-> & -> & -> & ->) (-> & -> & -> & ->). done.
Qed.

Lemma logsAppended_samePipeline (c c' : t) : logsAppended c c' → samePipeline c c'.
Proof. intros (? & ? & _ & ? & ? & _). by unfold samePipeline. Qed.

(** Every event other than a call of [initialize] leaves the pipeline as it
    is; so does a call of [initialize] on an initialized instance. *)
Lemma after_samePipeline (e : Event) (σ : Runtime) :
  isInitialize e = false ∨ _isInitialized (this σ) = true →
  samePipeline (this σ) (this (after e σ)).
Proof.
  intros Hcase. destruct e as [config extensions|telemetryItem|listener|listener| |messages];
    simpl.
  - destruct Hcase as [[=]|Hflag]. rewrite initialize_cases, Hflag.
    apply samePipeline_refl.
  - apply logsAppended_samePipeline, track_logsAppended.
  - unfold addNotificationListener, bind, get, deref; simpl.
    by destruct (_notificationManager (this σ)).
  - unfold removeNotificationListener, bind, get, deref; simpl.
    by destruct (_notificationManager (this σ)).
  - rewrite flushInternalLogs_flushSnapshot.
    unfold flushSnapshot, bind, get, deref; simpl.
    destruct (logger (this σ)) as [l|]; [|apply samePipeline_refl]. simpl.
    pose proof (trackAll_logsAppended (DiagnosticLogger.queue l) σ) as Happ.
    apply logsAppended_samePipeline in Happ.
    by destruct (trackAll (DiagnosticLogger.queue l) σ) as [[[[]|e] σ'] cs].
  - apply logsAppended_samePipeline, logsAppended_appendLogs.
Qed.

(** X12.  Once [initialize] has returned, the instance stays initialized
    and its pipeline is frozen: whatever is called afterwards, in any order
    ([initialize] again, [track], adding and removing listeners, the flush
    of the internal logs), the configuration, the extension list, the
    channel controller and the initialized flag are what they were.  On an
    instance that is not initialized the same holds as long as [initialize]
    is not called. *)
Theorem pipeline_is_frozen (σ : Runtime) (events : list Event)
    (Hcase : _isInitialized (this σ) = true
             ∨ Forall (λ e, isInitialize e = false) events) :
  samePipeline (this σ) (this (afterAll events σ)).
Proof.
  revert σ Hcase. induction events as [|e events IH]; intros σ Hcase; simpl.
  - apply samePipeline_refl.
  - assert (samePipeline (this σ) (this (after e σ))) as Hstep.
    { apply after_samePipeline. destruct Hcase as [Hflag|Hall]; [by right|left].
      by apply Forall_cons in Hall as [? _]. }
    apply (samePipeline_trans _ (this (after e σ))); [done|].
    apply IH. destruct Hcase as [Hflag|Hall].
    + left. destruct Hstep as (_ & _ & _ & ->). done.
    + right. by apply Forall_cons in Hall as [_ ?].
Qed.

(** The reachable states are the states after a list of events on a new
    instance. *)
Lemma reachable_afterAll (events : list Event) (σ : Runtime) :
  reachable σ → reachable (afterAll events σ).
Proof.
  revert σ. induction events as [|e events IH]; intros σ Hσ; [done|].
  simpl. apply IH. destruct e; simpl; by constructor.
Qed.

End Frozen.

Section Flush.
Context `{!Collaborators}.




End Flush.

Section Initialized.
Context `{!Collaborators}.

(** X14.  [pollInternalLogs] always schedules the flush with a positive
    period: the configured interval when that is positive, 10000 otherwise.
    It calls nothing and leaves the instance as it is. *)
Theorem pollInternalLogs_period_is_positive (σ : Runtime) (c : IConfiguration)
    (Hconfig : config (this σ) = Some c) :
  ∃ period,
    pollInternalLogs σ = (Normal (flushInternalLogs, period), σ, [])
    ∧ 0 < period
    ∧ (period = 10000 ∨ IConfiguration.diagnosticLogInterval c = Some period)
    ∧ (∀ z, IConfiguration.diagnosticLogInterval c = Some z → 0 < z → period = z).
Proof.
  unfold pollInternalLogs, bind, get, deref; simpl. rewrite Hconfig; simpl.
  destruct (IConfiguration.diagnosticLogInterval c) as [z|] eqn:Hz.
  - destruct (Z.ltb_spec 0 z); simpl.
    + exists z. split_and!; [done|done|by right|]. by intros ? [= <-] _.
    + exists 10000. split_and!; [done|done|by left|]. intros ? [= <-] ?. lia.
  - exists 10000. split_and!; [done|done|by left|done].
Qed.



(** X17.  Every call of [initialize] that gets past the check of the
    instrumentation key installs a new notification manager and a new
    logger, whether it then succeeds or fails: the listeners that had been
    registered and the diagnostic messages that had been queued are gone,
    and a [track] of [null] right after it notifies no listener. *)
Theorem initialize_replaces_manager_and_logger (σ : Runtime) (c : IConfiguration)
    (extensions : list (option IPlugin))
    (Hnew : _isInitialized (this σ) = false)
    (Hkey : is_Some (IConfiguration.instrumentationKey c)) :
  let σ' := final (initialize (Some c) extensions σ) in
  _notificationManager (this σ') = Some NotificationManager.new
  ∧ logger (this σ') = Some DiagnosticLogger.new
  ∧ track None σ'
    = (Throw (Error "Invalid telemetry item"), σ',
       [notificationManager_eventsDiscarded [None] InvalidEvent]).
Proof.
  destruct Hkey as [k Hk]. cbv zeta. rewrite initialize_cases, Hnew, Hk. cbv zeta.
  assert (∀ σ', _notificationManager (this σ') = Some NotificationManager.new →
                track None σ'
                = (Throw (Error "Invalid telemetry item"), σ',
                   [notificationManager_eventsDiscarded [None] InvalidEvent])) as Htrack.
  { intros σ' Hm. unfold track, bind. by rewrite _notififyInvalidEvent_cases, Hm. }
  destruct (validate _); unfold final; simpl; (split_and!; [done|done|by apply Htrack]).
Qed.

End Initialized.

(** * [stringUtils.GetLength] *)

Section GetLength.
Context {V : Type} (isNaN : V → bool) (ofNat : nat → V).


End GetLength.

(** * The rollup configuration *)

Section Rollup.
Import RollupConfig.

Lemma split_not_nil (sep : ascii) (s : string) : split sep s ≠ [].
Proof.
  destruct s as [|c rest]; simpl; [done|].
  destruct (Ascii.eqb c sep); [done|]. by destruct (split sep rest).
Qed.

Lemma length_split_cons (sep c : ascii) (s : string) :
  length (split sep (String c s))
  = if Ascii.eqb c sep then S (length (split sep s)) else length (split sep s).
Proof.
  simpl. destruct (Ascii.eqb c sep); [done|].
  pose proof (split_not_nil sep s). by destruct (split sep s).
Qed.

Lemma head_split_cons (sep c : ascii) (s : string) :
  default EmptyString (head (split sep (String c s)))
  = if Ascii.eqb c sep then EmptyString
    else String c (default EmptyString (head (split sep s))).
Proof.
  simpl. destruct (Ascii.eqb c sep); [done|].
  pose proof (split_not_nil sep s). by destruct (split sep s).
Qed.

(** The version has one more part than it has dots before its first
    hyphen. *)
Lemma length_verParts (version : string) :
  length (verParts version) = S (dotsBeforeHyphen version).
Proof.
  unfold verParts. induction version as [|c rest IH]; [done|].
  rewrite head_split_cons. cbn [dotsBeforeHyphen].
  destruct (Ascii.eqb c "-"); [done|].
  rewrite length_split_cons. destruct (Ascii.eqb c "."); by rewrite IH.
Qed.

(** X19.  The module loads exactly for a version that has two dots before
    its first hyphen: it then passes the replacements and the banner to
    [updateDistEsmFiles] and exports eight configurations; for any other
    version it throws the string "Invalid Version!" with the version in
    brackets, and exports nothing.  What stands between the dots is not
    looked at. *)
Theorem evaluate_checks_version (version : string) :
  (dotsBeforeHyphen version = 2%nat →
   ∃ configs, evaluate version = exports (replaceValues, bannerOf version) configs
              ∧ length configs = 8%nat)
  ∧ (dotsBeforeHyphen version ≠ 2%nat →
     evaluate version = throws ("Invalid Version! [" +:+ version +:+ "]")).
Proof.
  unfold evaluate. rewrite length_verParts. split.
  - intros ->. simpl. by eexists.
  - intros Hdots. destruct (Nat.eqb_spec (S (dotsBeforeHyphen version)) 3); [lia|done].
Qed.

(** X20.  Whatever the version, the configurations that the module exports
    write to pairwise different files, read the same input and carry the
    same banner.  A configuration has [uglify] among its plugins only as
    the last one, with the banner as preamble; the four that have it are
    the ones that write the [.min.js] files. *)
Theorem exported_files_are_distinct (version : string)
    (updated : list (string * string) * string) (configs : list Config)
    (Hloaded : evaluate version = exports updated configs) :
  NoDup (file ∘ output <$> configs)
  ∧ Forall (λ c, input c = "dist-esm/applicationinsights-perfmarkmeasure-js.js"
                 ∧ banner (output c) = bannerOf version) configs
  ∧ Forall (λ c, ((∃ preamble, uglify preamble ∈ plugins c) → minifies c = true)
                 ∧ (minifies c = true →
                    last (plugins c) = Some (uglify (bannerOf version)))) configs
  ∧ (file ∘ output <$> filter (λ c, minifies c = true) configs)
    = [ "browser/ai.prfmm-mgr." +:+ version +:+ ".min.js";
        "browser/ai.prfmm-mgr." +:+ version +:+ ".cjs.min.js";
        "browser/ai.prfmm-mgr." +:+ version +:+ ".gbl.min.js";
        "dist/applicationinsights-perfmarkmeasure-js.min.js" ].
Proof.
  revert Hloaded. unfold evaluate.
  destruct (negb _); [done|]. intros [= _ <-].
  assert (∀ a b, a ≠ b → "browser/ai.prfmm-mgr." +:+ version +:+ a
                         ≠ "browser/ai.prfmm-mgr." +:+ version +:+ b) as Hbrowser.
  { intros a b Hab Heq. simpl in Heq. by simplify_eq. }
  split_and!.
  - simpl. repeat (apply NoDup_cons; split;
                   [rewrite ?not_elem_of_cons; split_and?;
                    try (by apply Hbrowser); try done; apply not_elem_of_nil|]).
    apply NoDup_nil_2.
  - by repeat constructor.
  - repeat (apply Forall_cons; split); try apply Forall_nil_2;
      (split; [intros [preamble Hin]|intros Hlast]);
      try reflexivity; try discriminate Hlast;
      cbn [plugins] in Hin;
      repeat (apply elem_of_cons in Hin as [Hin|Hin]; [discriminate Hin|]);
      by apply elem_of_nil in Hin.
  - reflexivity.
Qed.

End Rollup.

(** * The properties on the sample core *)

#[local] Existing Instance sampleCollaborators.

Lemma sampleCore_reachable : reachable sampleCore.
Proof. apply reachable_initialize, (reachable_constructor 0). Qed.

Lemma sampleCore_initialized : _isInitialized (this sampleCore) = true.
Proof. vm_compute. reflexivity. Qed.

Lemma sampleRun_returns :
  initialize (Some (sampleConfig (Some "ikey"))) (Some <$> samplePlugins) fresh
  = (Normal tt, sampleCore, trace sampleRun).
Proof. vm_compute. reflexivity. Qed.

(** C2 on the sample core: a second [initialize], here without any
    configuration, is refused and changes nothing. *)
Lemma initialize_twice_fails_witness :
  initialize (Some (sampleConfig (Some "ikey"))) (Some <$> samplePlugins) fresh
  = (Normal tt, sampleCore, trace sampleRun)
  ∧ initialize None [] sampleCore
    = (Throw (Error "Core should not be initialized more than once"), sampleCore, []).
Proof.
  split; [exact sampleRun_returns|].
  exact (initialize_twice_fails fresh sampleCore _ _ _ sampleRun_returns None []).
Defined.

(** C9 on a fresh instance: no configuration and a configuration without a
    key are refused; the sample configuration is not. *)
Lemma initialize_requires_instrumentationKey_witness :
  _isInitialized (this fresh) = false
  ∧ initialize (Some (sampleConfig None)) [] fresh
    = (Throw (Error "Please provide instrumentation key"), fresh, [])
  ∧ outcome (initialize (Some (sampleConfig (Some "ikey"))) [] fresh)
    ≠ Throw (Error "Please provide instrumentation key").
Proof.
  split; [reflexivity|]. split.
  - apply (initialize_requires_instrumentationKey fresh (Some (sampleConfig None)) []);
      reflexivity.
  - apply (initialize_requires_instrumentationKey fresh
             (Some (sampleConfig (Some "ikey"))) []); [reflexivity|].
    by eexists.
Defined.

(** C9 as the specification words it fails: with the empty string as
    instrumentation key, [initialize] succeeds. *)
Lemma initialize_accepts_empty_key :
  IConfiguration.instrumentationKey (sampleConfig (Some "")) = Some ""
  ∧ outcome emptyKeyRun = Normal tt
  ∧ _isInitialized (this (final emptyKeyRun)) = true.
Proof. vm_compute. done. Qed.

(** C3 on a run in which no extension stands after the channel controller. *)
Lemma initialize_without_channels_witness :
  (∃ exts, channelController_initialize exts ∈ trace noChannelRun)
  ∧ ChannelController.ChannelControls (_channelController (this (final noChannelRun))) = []
  ∧ outcome noChannelRun = Throw (Error "No channels available")
  ∧ outcome (getTransmissionControls (final noChannelRun)) = Normal []
  ∧ _isInitialized (this (final noChannelRun)) = false
  ∧ ∀ config' extensions',
      outcome (initialize config' extensions' (final noChannelRun))
      ≠ Throw (Error "Core should not be initialized more than once").
Proof.
  assert (∃ exts, channelController_initialize exts ∈ trace noChannelRun) as Hcontroller.
  { eexists. vm_compute. right. left. }
  assert (ChannelController.ChannelControls
            (_channelController (this (final noChannelRun))) = []) as Hnone.
  { vm_compute. reflexivity. }
  split; [exact Hcontroller|]. split; [exact Hnone|].
  exact (initialize_without_channels fresh (Some (sampleConfig (Some "ikey")))
           [Some (processingPlugin "first" 10)] Hcontroller Hnone).
Defined.

(** C10 on the sample run: the plugin without a priority is in the list and
    its [initialize] hook is not called, while that of a plugin below the
    channel controller is. *)
Lemma initialize_skips_plugins_without_priority_witness :
  initOnlyPlugin "setup" ∈ samplePlugins
  ∧ ITelemetryPlugin.priority (initOnlyPlugin "setup") = None
  ∧ (plugin_initialize (initOnlyPlugin "setup") ∉ trace sampleRun)
  ∧ (plugin_initialize (processingPlugin "first" 10) ∈ trace sampleRun).
Proof.
  split_and!.
  - right. left.
  - reflexivity.
  - apply (initialize_skips_plugins_without_priority fresh
             (Some (sampleConfig (Some "ikey"))) (Some <$> samplePlugins)).
    reflexivity.
  - vm_compute. do 3 right. left.
Defined.

(** C6 on the sample run. *)
Lemma init_only_plugin_not_linked_not_dispatched_witness :
  ITelemetryPlugin.processTelemetry (initOnlyPlugin "setup") = false
  ∧ (∀ next, setNextPlugin (initOnlyPlugin "setup") next ∉ trace sampleRun)
  ∧ (∀ item, processTelemetry (initOnlyPlugin "setup") item
             ∉ trace (track (Some sampleItem) sampleCore)).
Proof.
  split; [reflexivity|].
  destruct (init_only_plugin_not_linked_not_dispatched (initOnlyPlugin "setup") eq_refl)
    as [Hlink Hdispatch].
  split.
  - intros next. apply Hlink.
  - intros item. apply Hdispatch.
Defined.

(** C1 on the sample run: "first" (10) is given "second" (20), "second" is
    given the channel controller (500), "channel" (1000) and "setup" are
    given nothing, and [track] hands the item to "first". *)
Lemma pipeline_follows_priority_witness :
  _extensions (this fresh) = []
  ∧ (Some <$> samplePlugins)
    ++ default [] (IConfiguration.extensions (sampleConfig (Some "ikey")))
    = Some <$> samplePlugins
  ∧ Forall comparable samplePlugins
  ∧ NoDup (ITelemetryPlugin.priority
             <$> filter (λ e, ITelemetryPlugin.processTelemetry e = true) samplePlugins)
  ∧ initialize (Some (sampleConfig (Some "ikey"))) (Some <$> samplePlugins) fresh
    = (Normal tt, sampleCore, trace sampleRun)
  ∧ successors (processingPlugin "first" 10) (trace sampleRun) = [processingPlugin "second" 20]
  ∧ nextHigher (samplePlugins ++ [channelController])
      (processingPlugin "first" 10) (processingPlugin "second" 20)
  ∧ successors (processingPlugin "second" 20) (trace sampleRun) = [channelController]
  ∧ successors (processingPlugin "channel" 1000) (trace sampleRun) = []
  ∧ successors (initOnlyPlugin "setup") (trace sampleRun) = []
  ∧ trace (track (Some sampleItem) sampleCore)
    = [processTelemetry (processingPlugin "first" 10)
         (withDefaults (adoptConfig (sampleConfig (Some "ikey"))) (toISOString 0) sampleItem)].
Proof.
  assert (Forall comparable samplePlugins) as Hcomparable.
  { repeat constructor; intros Hproc; (discriminate Hproc || by eexists). }
  assert (NoDup (ITelemetryPlugin.priority
                   <$> filter (λ e, ITelemetryPlugin.processTelemetry e = true)
                         samplePlugins)) as Hdistinct.
  { apply (bool_decide_unpack _). vm_compute. exact I. }
  assert ((Some <$> samplePlugins)
          ++ default [] (IConfiguration.extensions (sampleConfig (Some "ikey")))
          = Some <$> samplePlugins) as Hmerged by reflexivity.
  destruct (pipeline_follows_priority fresh sampleCore (sampleConfig (Some "ikey"))
              (Some <$> samplePlugins) samplePlugins (trace sampleRun)
              eq_refl Hmerged Hcomparable Hdistinct sampleRun_returns)
    as (Hlinked & Hunlinked & Hfirst).
  assert (∀ id z, z < 500 → belowController (processingPlugin id z)) as Hbelow.
  { intros id z Hz. split; [done|]. simpl. by apply Z.ltb_lt. }
  split_and!; [done..| | | | | |].
  - destruct (Hlinked (processingPlugin "first" 10)) as (next & Hnext & _);
      [do 3 right; left|by apply Hbelow|].
    rewrite Hnext. f_equal. revert Hnext. vm_compute. by intros [= <-].
  - destruct (Hlinked (processingPlugin "first" 10)) as (next & Hnext & Hhigher);
      [do 3 right; left|by apply Hbelow|].
    revert Hnext Hhigher. vm_compute successors. by intros [= <-].
  - destruct (Hlinked (processingPlugin "second" 20)) as (next & Hnext & _);
      [left|by apply Hbelow|].
    rewrite Hnext. f_equal. revert Hnext. vm_compute. by intros [= <-].
  - apply Hunlinked; [do 2 right; left|]. intros [_ Hlt]. by vm_compute in Hlt.
  - apply Hunlinked; [right; left|]. by intros [Hproc _].
  - destruct (Hfirst (processingPlugin "first" 10)) as [Htrack _];
      [do 3 right; left|by apply Hbelow| |].
    + intros e zf ze He Hproc [= <-] Hze. revert Hproc Hze.
      repeat (apply elem_of_cons in He as [->|He]); [..|by apply elem_of_nil in He];
        simpl; intros Hproc [= <-]; (lia || discriminate Hproc).
    + rewrite Htrack; [done|by eexists].
Defined.


Lemma sampleCoreListening_reachable : reachable sampleCoreListening.
Proof. do 3 apply reachable_addNotificationListener. exact sampleCore_reachable. Qed.

Lemma sampleCoreListening_manager :
  _notificationManager (this sampleCoreListening)
  = Some {| NotificationManager.listeners := [discardListener; discardListener; sentListener] |}.
Proof. vm_compute. reflexivity. Qed.

(** C5 as amended, on the sample core with its three registrations. *)
Lemma track_null_notifies_witness :
  reachable sampleCoreListening
  ∧ _isInitialized (this sampleCoreListening) = true
  ∧ outcome (track None sampleCoreListening) = Throw (Error "Invalid telemetry item")
  ∧ discardsReceived discardListener (trace (track None sampleCoreListening))
    = [([None], InvalidEvent); ([None], InvalidEvent)]
  ∧ discardsReceived sentListener (trace (track None sampleCoreListening)) = [].
Proof.
  assert (_isInitialized (this sampleCoreListening) = true) as Hinit
    by (vm_compute; reflexivity).
  split; [exact sampleCoreListening_reachable|]. split; [exact Hinit|].
  destruct (track_null_notifies sampleCoreListening sampleCoreListening_reachable Hinit)
    as (manager & Hmanager & Htrack & Hreceived).
  rewrite sampleCoreListening_manager in Hmanager. injection Hmanager as <-.
  split_and!.
  - by rewrite Htrack.
  - by rewrite Hreceived.
  - by rewrite Hreceived.
Defined.

(** C5 as the specification words it fails: of the listeners registered
    with the notification manager, one receives two notifications for the one
    [track(null)] and the other receives none. *)
Lemma track_null_not_one_notification_each :
  _notificationManager (this sampleCoreListening)
  = Some {| NotificationManager.listeners := [discardListener; discardListener; sentListener] |}
  ∧ discardsReceived discardListener (trace (track None sampleCoreListening))
    = [([None], InvalidEvent); ([None], InvalidEvent)]
  ∧ discardsReceived sentListener (trace (track None sampleCoreListening)) = [].
Proof. vm_compute. done. Qed.

(** C8 as amended, on the sample core, whose configured interval is 0. *)
Lemma pollInternalLogs_flushes_snapshot_witness :
  config (this sampleCore) = Some (adoptConfig (sampleConfig (Some "ikey")))
  ∧ (∀ z, IConfiguration.diagnosticLogInterval (adoptConfig (sampleConfig (Some "ikey")))
          = Some z → z ≤ 0)
  ∧ pollInternalLogs sampleCore = (Normal (flushInternalLogs, 10000), sampleCore, [])
  ∧ flushInternalLogs sampleCoreLogged = flushSnapshot sampleCoreLogged
  ∧ logger (this (final (flushInternalLogs sampleCoreLogged)))
    = Some {| DiagnosticLogger.queue := [] |}.
Proof.
  assert (config (this sampleCore) = Some (adoptConfig (sampleConfig (Some "ikey"))))
    as Hconfig by (vm_compute; reflexivity).
  assert (∀ z, IConfiguration.diagnosticLogInterval (adoptConfig (sampleConfig (Some "ikey")))
               = Some z → z ≤ 0) as Hinterval.
  { intros z Hz. simpl in Hz. injection Hz as <-. lia. }
  destruct (pollInternalLogs_flushes_snapshot sampleCore _ Hconfig Hinterval)
    as (Hpoll & Hflush & _ & Hempty).
  split_and!; [done..|].
  apply Hempty. vm_compute. reflexivity.
Defined.

(** C8 as the specification words it fails.  The queue holds one message
    when the flush starts.  While that message is tracked, the pipeline
    queues another one: it is in the queue when [forEach] is over, it has not
    been converted (one item has been processed), and it is gone when the
    flush ends. *)
Lemma flush_drops_messages_queued_during_drain :
  DiagnosticLogger.queue <$> logger (this sampleCoreLogged) = Some [sampleLogMessage]
  ∧ DiagnosticLogger.queue <$> logger (this (final (forEach_queue 1 0 sampleCoreLogged)))
    = Some [sampleLogMessage; sampleLogMessage]
  ∧ outcome (flushInternalLogs sampleCoreLogged) = Normal tt
  ∧ length (trace (flushInternalLogs sampleCoreLogged)) = 1%nat
  ∧ DiagnosticLogger.queue <$> logger (this (final (flushInternalLogs sampleCoreLogged)))
    = Some [].
Proof. vm_compute. done. Qed.

(** C7 fails on two processing plugins of priority 0: [initialize] returns
    normally and no warning has been written. *)
Lemma same_priority_zero_not_warned :
  outcome samePriorityZeroRun = Normal tt
  ∧ warnings (trace samePriorityZeroRun) = []
  ∧ _extensions (this (final samePriorityZeroRun))
    = [Some (processingPlugin "A" 0); Some (processingPlugin "B" 0);
       Some channelController; Some (processingPlugin "channel" 1000)].
Proof. vm_compute. done. Qed.

(** ** The further properties on the sample runs *)

(** X1 on a run with a null entry: it fails the validation, has called
    nothing and leaves the merged list in the instance. *)
Lemma initialize_validates_extensions_witness :
  _isInitialized (this fresh) = false
  ∧ is_Some (IConfiguration.instrumentationKey (sampleConfig (Some "ikey")))
  ∧ outcome nullExtensionRun = Throw (Error validationError)
  ∧ trace nullExtensionRun = []
  ∧ _isInitialized (this (final nullExtensionRun)) = false
  ∧ _extensions (this (final nullExtensionRun))
    = [Some (processingPlugin "channel" 1000); None].
Proof.
  assert (is_Some (IConfiguration.instrumentationKey (sampleConfig (Some "ikey")))) as Hkey
    by (by eexists).
  destruct (initialize_validates_extensions fresh (sampleConfig (Some "ikey"))
              [Some (processingPlugin "channel" 1000); None] eq_refl Hkey)
    as [Hiff Hfailed].
  assert (outcome nullExtensionRun = Throw (Error validationError)) as Hout.
  { apply Hiff. intros Hall. simpl in Hall.
    apply Forall_cons in Hall as [_ Hall]. apply Forall_cons in Hall as [[p [Hp _]] _].
    discriminate Hp. }
  destruct (Hfailed Hout) as (Htrace & Hflag & Hexts).
  split_and!; [reflexivity|exact Hkey|exact Hout|exact Htrace|exact Hflag|exact Hexts].
Defined.

(** X2 on the same run: a later attempt with valid extensions does not
    initialize the instance. *)
Lemma failed_validation_is_permanent_witness :
  initialize (Some (sampleConfig (Some "ikey")))
    [Some (processingPlugin "channel" 1000); None] fresh
  = (Throw (Error validationError), final nullExtensionRun, [])
  ∧ _isInitialized
      (this (retries [(Some (sampleConfig (Some "ikey")),
                       [Some (processingPlugin "channel" 1000)])]
               (final nullExtensionRun))) = false.
Proof.
  assert (initialize (Some (sampleConfig (Some "ikey")))
            [Some (processingPlugin "channel" 1000); None] fresh
          = (Throw (Error validationError), final nullExtensionRun, [])) as Hfailed
    by (vm_compute; reflexivity).
  split; [exact Hfailed|].
  exact (failed_validation_is_permanent fresh (final nullExtensionRun) _ _ _ Hfailed
           [(Some (sampleConfig (Some "ikey")), [Some (processingPlugin "channel" 1000)])]).
Defined.

(** X3 on the sample run. *)
Lemma initialize_adopts_configuration_witness :
  _isInitialized (this fresh) = false
  ∧ is_Some (IConfiguration.instrumentationKey (sampleConfig (Some "ikey")))
  ∧ ∃ c' extensionConfig,
      config (this sampleCore) = Some c'
      ∧ IConfiguration.instrumentationKey c' = Some "ikey"
      ∧ IConfiguration.extensions c' = Some []
      ∧ IConfiguration.extensionConfig c' = Some extensionConfig
      ∧ extensionConfig !! "NotificationManager" = Some NotificationManagerRef.
Proof.
  assert (is_Some (IConfiguration.instrumentationKey (sampleConfig (Some "ikey")))) as Hkey
    by (by eexists).
  split; [reflexivity|]. split; [exact Hkey|].
  destruct (initialize_adopts_configuration fresh (sampleConfig (Some "ikey"))
              (Some <$> samplePlugins) eq_refl Hkey)
    as (c' & extensionConfig & Hc & Hk & _ & He & Hec & Hnm & _).
  exists c', extensionConfig. split_and!; [exact Hc|exact Hk|exact He|exact Hec|exact Hnm].
Defined.

(** X4 on the sample run: "setup" comes first, then "first" (10), "second"
    (20), the channel controller (500) and "channel" (1000). *)
Lemma pipeline_is_ordered_witness :
  _extensions (this fresh) = []
  ∧ (Some <$> samplePlugins)
    ++ default [] (IConfiguration.extensions (sampleConfig (Some "ikey")))
    = Some <$> samplePlugins
  ∧ Forall comparable samplePlugins
  ∧ initialize (Some (sampleConfig (Some "ikey"))) (Some <$> samplePlugins) fresh
    = (Normal tt, sampleCore, trace sampleRun)
  ∧ ∃ pipeline,
      _extensions (this sampleCore) = Some <$> pipeline
      ∧ pipeline ≡ₚ samplePlugins ++ [channelController]
      ∧ pipeline
        = filter (λ e, ITelemetryPlugin.processTelemetry e = false) samplePlugins
          ++ filter (λ e, ITelemetryPlugin.processTelemetry e = true) pipeline
      ∧ StronglySorted priorityLe
          (filter (λ e, ITelemetryPlugin.processTelemetry e = true) pipeline).
Proof.
  assert (Forall comparable samplePlugins) as Hcomparable.
  { repeat constructor; intros Hproc; (discriminate Hproc || by eexists). }
  assert ((Some <$> samplePlugins)
          ++ default [] (IConfiguration.extensions (sampleConfig (Some "ikey")))
          = Some <$> samplePlugins) as Hmerged by reflexivity.
  split_and!; [reflexivity|exact Hmerged|exact Hcomparable|exact sampleRun_returns|].
  exact (pipeline_is_ordered fresh sampleCore (sampleConfig (Some "ikey"))
           (Some <$> samplePlugins) samplePlugins (trace sampleRun)
           eq_refl Hmerged Hcomparable sampleRun_returns).
Defined.

(** X6 on the sample run, whose priorities 20, 1000, 10 and 500 differ. *)
Lemma initialize_warns_only_on_collision_witness :
  _extensions (this fresh) = []
  ∧ (Some <$> samplePlugins)
    ++ default [] (IConfiguration.extensions (sampleConfig (Some "ikey")))
    = Some <$> samplePlugins
  ∧ NoDup (checkedPriorities (samplePlugins ++ [channelController]))
  ∧ initialize (Some (sampleConfig (Some "ikey"))) (Some <$> samplePlugins) fresh
    = (Normal tt, sampleCore, trace sampleRun)
  ∧ warnings (trace sampleRun) = [].
Proof.
  assert (NoDup (checkedPriorities (samplePlugins ++ [channelController]))) as Hdistinct.
  { apply (bool_decide_unpack _). vm_compute. exact I. }
  assert ((Some <$> samplePlugins)
          ++ default [] (IConfiguration.extensions (sampleConfig (Some "ikey")))
          = Some <$> samplePlugins) as Hmerged by reflexivity.
  split_and!; [reflexivity|exact Hmerged|exact Hdistinct|exact sampleRun_returns|].
  exact (initialize_warns_only_on_collision fresh sampleCore (sampleConfig (Some "ikey"))
           (Some <$> samplePlugins) samplePlugins (trace sampleRun)
           eq_refl Hmerged Hdistinct sampleRun_returns).
Defined.

(** X7 on a run with two plugins of priority 20. *)
Lemma initialize_warns_on_collision_witness :
  _extensions (this fresh) = []
  ∧ ITelemetryPlugin.priority (processingPlugin "A" 20) = Some 20
  ∧ ITelemetryPlugin.priority (processingPlugin "B" 20) = Some 20
  ∧ 20 ≠ 0
  ∧ initialize (Some (sampleConfig (Some "ikey")))
      [Some (processingPlugin "A" 20); Some (processingPlugin "B" 20);
       Some (processingPlugin "channel" 1000)] fresh
    = (Normal tt, final samePriorityRun, trace samePriorityRun)
  ∧ ∃ previous colliding,
      (colliding = processingPlugin "A" 20 ∨ colliding = processingPlugin "B" 20)
      ∧ warnToConsole ("Two extensions have same priority" +:+ previous +:+ ", "
                       +:+ ITelemetryPlugin.identifier colliding)
        ∈ trace samePriorityRun.
Proof.
  assert (initialize (Some (sampleConfig (Some "ikey")))
            [Some (processingPlugin "A" 20); Some (processingPlugin "B" 20);
             Some (processingPlugin "channel" 1000)] fresh
          = (Normal tt, final samePriorityRun, trace samePriorityRun)) as Hinit
    by (vm_compute; reflexivity).
  assert (20 ≠ 0) as Hp by lia.
  split_and!; [reflexivity|reflexivity|reflexivity|exact Hp|exact Hinit|].
  exact (initialize_warns_on_collision fresh (final samePriorityRun)
           (sampleConfig (Some "ikey"))
           [Some (processingPlugin "A" 20); Some (processingPlugin "B" 20);
            Some (processingPlugin "channel" 1000)]
           (trace samePriorityRun)
           [] [] [processingPlugin "channel" 1000]
           (processingPlugin "A" 20) (processingPlugin "B" 20) 20
           eq_refl eq_refl eq_refl eq_refl Hp Hinit).
Defined.

(** X8 on the run without a channel, followed by an attempt with one. *)
Lemma retry_after_no_channels_witness :
  _extensions (this fresh) = []
  ∧ initialize (Some (sampleConfig (Some "ikey"))) [Some (processingPlugin "first" 10)] fresh
    = (Throw (Error "No channels available"), final noChannelRun, trace noChannelRun)
  ∧ is_Some (IConfiguration.instrumentationKey (sampleConfig (Some "ikey")))
  ∧ Forall (λ e, ITelemetryPlugin.initialize e = true) [processingPlugin "channel" 1000]
  ∧ ∃ pipeline,
      _extensions (this (final retryRun)) = Some <$> pipeline
      ∧ pipeline ≡ₚ [processingPlugin "first" 10] ++ [channelController]
                     ++ [processingPlugin "channel" 1000] ++ [channelController]
      ∧ ∃ previous,
          warnToConsole ("Two extensions have same priority" +:+ previous +:+ ", "
                         +:+ ChannelControllerIdentifier)
          ∈ trace retryRun.
Proof.
  assert (initialize (Some (sampleConfig (Some "ikey")))
            [Some (processingPlugin "first" 10)] fresh
          = (Throw (Error "No channels available"), final noChannelRun, trace noChannelRun))
    as Hfailed by (vm_compute; reflexivity).
  assert (is_Some (IConfiguration.instrumentationKey (sampleConfig (Some "ikey")))) as Hkey
    by (by eexists).
  assert (Forall (λ e, ITelemetryPlugin.initialize e = true)
            [processingPlugin "channel" 1000]) as Hvalid by (by repeat constructor).
  split_and!; [reflexivity|exact Hfailed|exact Hkey|exact Hvalid|].
  destruct (retry_after_no_channels fresh (final noChannelRun)
              (sampleConfig (Some "ikey")) (sampleConfig (Some "ikey"))
              [Some (processingPlugin "first" 10)] [Some (processingPlugin "channel" 1000)]
              [processingPlugin "first" 10] [processingPlugin "channel" 1000]
              (trace noChannelRun) eq_refl eq_refl Hfailed Hkey eq_refl Hvalid)
    as (pipeline & Hexts & Hperm & Hwarn).
  exists pipeline. split_and!; [exact Hexts|exact Hperm|].
  apply Hwarn. discriminate.
Defined.

(** X9 on the sample item, which has a name and a key and nothing else. *)
Lemma defaults_keep_what_is_present_witness :
  applyDefaults sampleItem sampleCore
  = (Normal (withDefaults (adoptConfig (sampleConfig (Some "ikey"))) (toISOString 0)
               sampleItem),
     tick sampleCore, [])
  ∧ ITelemetryItem.name
      (withDefaults (adoptConfig (sampleConfig (Some "ikey"))) (toISOString 0) sampleItem)
    = Some "pageView"
  ∧ ITelemetryItem.iKey
      (withDefaults (adoptConfig (sampleConfig (Some "ikey"))) (toISOString 0) sampleItem)
    = Some "ikey".
Proof.
  assert (applyDefaults sampleItem sampleCore
          = (Normal (withDefaults (adoptConfig (sampleConfig (Some "ikey"))) (toISOString 0)
                       sampleItem),
             tick sampleCore, [])) as Hfilled by (vm_compute; reflexivity).
  split; [exact Hfilled|].
  destruct (defaults_keep_what_is_present sampleItem _ sampleCore _ _ Hfilled)
    as (Hname & _ & _ & Hkey & _).
  split; [exact Hname|]. apply Hkey; [reflexivity|discriminate].
Defined.

(** X12 on the sample core: a second [initialize], a tracked item, a flush
    and the removal of a listener leave the pipeline as it is. *)
Lemma pipeline_is_frozen_witness :
  _isInitialized (this sampleCore) = true
  ∧ samePipeline (this sampleCore)
      (this (afterAll [call_initialize None []; call_track (Some sampleItem); timer_fires;
                       call_removeNotificationListener discardListener] sampleCore)).
Proof.
  split; [exact sampleCore_initialized|].
  exact (pipeline_is_frozen sampleCore
           [call_initialize None []; call_track (Some sampleItem); timer_fires;
            call_removeNotificationListener discardListener]
           (or_introl sampleCore_initialized)).
Defined.


(** X14 on the sample core, whose configured interval is 0. *)
Lemma pollInternalLogs_period_is_positive_witness :
  config (this sampleCore) = Some (adoptConfig (sampleConfig (Some "ikey")))
  ∧ pollInternalLogs sampleCore = (Normal (flushInternalLogs, 10000), sampleCore, []).
Proof.
  assert (config (this sampleCore) = Some (adoptConfig (sampleConfig (Some "ikey"))))
    as Hconfig by (vm_compute; reflexivity).
  split; [exact Hconfig|].
  destruct (pollInternalLogs_period_is_positive sampleCore _ Hconfig)
    as (period & Hpoll & Hpositive & [->|Hinterval] & _); [exact Hpoll|].
  simpl in Hinterval. injection Hinterval as <-. lia.
Defined.



(** X17 on the run without a channel: the listener registered after it is
    gone after the next attempt. *)
Lemma initialize_replaces_manager_and_logger_witness :
  _isInitialized (this noChannelListening) = false
  ∧ is_Some (IConfiguration.instrumentationKey (sampleConfig (Some "ikey")))
  ∧ _notificationManager (this noChannelListening)
    = Some {| NotificationManager.listeners := [discardListener] |}
  ∧ trace (track None
             (final (initialize (Some (sampleConfig (Some "ikey")))
                       [Some (processingPlugin "channel" 1000)] noChannelListening)))
    = [notificationManager_eventsDiscarded [None] InvalidEvent].
Proof.
  assert (is_Some (IConfiguration.instrumentationKey (sampleConfig (Some "ikey")))) as Hkey
    by (by eexists).
  split_and!; [reflexivity|exact Hkey|reflexivity|].
  destruct (initialize_replaces_manager_and_logger noChannelListening
              (sampleConfig (Some "ikey")) [Some (processingPlugin "channel" 1000)]
              eq_refl Hkey) as (_ & _ & Htrack).
  by rewrite Htrack.
Defined.


(** X20 on a version with a pre-release tag. *)
Lemma exported_files_are_distinct_witness :
  RollupConfig.evaluate sampleVersion
  = RollupConfig.exports (RollupConfig.replaceValues, RollupConfig.bannerOf sampleVersion)
      sampleExports
  ∧ NoDup (RollupConfig.file ∘ RollupConfig.output <$> sampleExports)
  ∧ length sampleExports = 8%nat.
Proof.
  assert (RollupConfig.evaluate sampleVersion
          = RollupConfig.exports
              (RollupConfig.replaceValues, RollupConfig.bannerOf sampleVersion)
              sampleExports) as Hloaded by (vm_compute; reflexivity).
  split; [exact Hloaded|]. split; [|reflexivity].
  destruct (exported_files_are_distinct sampleVersion _ sampleExports Hloaded)
    as (Hdistinct & _).
  exact Hdistinct.
Defined.
